(** * Consensus node (src/nodes/node.ts): shallow embedding and properties

    The node keeps a state record, a per-round message log and a set of
    suspended activities (timers and the continuations of the asynchronous
    round function).  JavaScript runs each synchronous segment to completion,
    so the node is modelled as a transition system whose steps are exactly
    those segments: an HTTP handler, or the resumption of a suspended round at
    one of its [await] points.

    Numbers: round numbers and tally counters are natural numbers ([nat]); the
    configuration parameters [N] and [F] are integers ([Z]), so that
    [Math.floor(N / 2)] is [N / 2] and [Math.floor((N - 1) / 2)] is
    [(N - 1) / 2] (floor division).  Floating-point effects above 2^53 are
    outside the model. *)

From Stdlib Require Import ZArith Lia Bool List.
From stdpp Require Import base option list gmap.
Import ListNotations.

(** ** Data model *)

(** Modelled from the spec: the type [Value] of src/types.ts, which is not
    part of the sources at hand.  The spec gives the two binary symbols 0 and
    1 and the sentinel "?", which are also the three bucket keys of the
    message log. *)
Inductive Value : Type := V0 | V1 | VQ.

(** Modelled from the spec: the type [NodeState] of src/types.ts;
    [None] stands for JavaScript's [null]. *)
Record NodeState : Type := mkNodeState {
  killed : bool;
  x : option Value;
  decided : option bool;
  k : option nat
}.

Inductive MessageType : Type := proposal | vote.

Record ConsensusMessage : Type := mkMessage {
  type : MessageType;
  value : Value;
  round : nat;
  sender : nat
}.

(** The object [{ "0": 0, "1": 0, "?": 0 }] kept for one round. *)
Record Buckets : Type := mkBuckets {
  count0 : nat;
  count1 : nat;
  countQ : nat
}.

Record MessageLog : Type := mkLog {
  proposals : gmap nat Buckets;
  votes : gmap nat Buckets
}.

(** The arguments of [node(...)] that the protocol reads. *)
Record Config : Type := mkConfig {
  nodeId : nat;
  N : Z;
  F : Z;
  initialValue : Value;
  isFaulty : bool
}.

#[global] Instance Value_eq_dec : EqDecision Value.
Proof. solve_decision. Defined.

#[global] Instance MessageType_eq_dec : EqDecision MessageType.
Proof. solve_decision. Defined.

(** ** Tally buckets *)

Definition zeroBuckets : Buckets := mkBuckets 0 0 0.

(** [bucket[value.toString()]] *)
Definition bucketGet (b : Buckets) (v : Value) : nat :=
  match v with
  | V0 => count0 b
  | V1 => count1 b
  | VQ => countQ b
  end.

(** [bucket[value.toString()]++] *)
Definition bucketIncr (b : Buckets) (v : Value) : Buckets :=
  match v with
  | V0 => mkBuckets (S (count0 b)) (count1 b) (countQ b)
  | V1 => mkBuckets (count0 b) (S (count1 b)) (countQ b)
  | VQ => mkBuckets (count0 b) (count1 b) (S (countQ b))
  end.

(** One of the two tables of the log, chosen by message type. *)
Definition table (log : MessageLog) (ty : MessageType) : gmap nat Buckets :=
  match ty with
  | proposal => proposals log
  | vote => votes log
  end.

(** The counter of (type, round, value); an unseen round counts as 0. *)
Definition countOf (log : MessageLog) (ty : MessageType) (r : nat) (v : Value) : nat :=
  match table log ty !! r with
  | Some b => bucketGet b v
  | None => 0
  end.

(** [if (!tbl[round]) tbl[round] = { "0": 0, "1": 0, "?": 0 }]; a bucket
    object is always truthy, so the test is a test of absence. *)
Definition ensureRound (tbl : gmap nat Buckets) (r : nat) : gmap nat Buckets :=
  match tbl !! r with
  | Some _ => tbl
  | None => <[r := zeroBuckets]> tbl
  end.

Definition initializeRoundTracking (r : nat) (log : MessageLog) : MessageLog :=
  mkLog (ensureRound (proposals log) r) (ensureRound (votes log) r).

(** [tbl[round][value.toString()]++]; [None] is the TypeError raised when
    [tbl[round]] is undefined. *)
Definition incrementTally (tbl : gmap nat Buckets) (r : nat) (v : Value)
  : option (gmap nat Buckets) :=
  match tbl !! r with
  | Some b => Some (<[r := bucketIncr b v]> tbl)
  | None => None
  end.

(** [(round % 2) as Value] *)
Definition roundParity (r : nat) : Value :=
  if Nat.eqb (r mod 2) 0 then V0 else V1.

(** [determineConsensusValue]; [None] is the TypeError raised when
    [messageLog.proposals[round]] is undefined. *)
Definition determineConsensusValue (log : MessageLog) (r : nat) : option Value :=
  match proposals log !! r with
  | None => None
  | Some p =>
      Some (if Nat.ltb (count1 p) (count0 p) then V0
            else if Nat.ltb (count0 p) (count1 p) then V1
            else roundParity r)
  end.

Section Node.

Context (cfg : Config).

Definition faultToleranceThreshold : Z := ((N cfg - 1) / 2)%Z.

Definition isExceedingFaultLimit : bool := (faultToleranceThreshold <? F cfg)%Z.

(** [checkFinalDecision]; [None] is the TypeError raised when
    [messageLog.votes[round]] is undefined. *)
Definition checkFinalDecision (log : MessageLog) (r : nat) : option bool :=
  match votes log !! r with
  | None => None
  | Some v =>
      Some (((N cfg / 2 <=? Z.of_nat (count0 v))%Z
             || (N cfg / 2 <=? Z.of_nat (count1 v))%Z)
            && Nat.leb 2 r)
  end.

(** ** The node as a transition system *)

(** One [fetch] POST to [/message] of a peer. *)
Record Delivery : Type := mkDelivery {
  target : nat;
  payload : ConsensusMessage
}.

(** A suspended activity of the node: a pending
    [setTimeout(runConsensusProtocol, 50)], or a call of
    [runConsensusProtocol] suspended at one of its [await]s, with the local
    constants it has bound so far. *)
Inductive Task : Type :=
  | RunTimer
  | ProposalGate (currentRound : nat) (proposedValue : Value)
  | ProposalSettle (currentRound : nat)
  | VoteGate (currentRound : nat) (consensusValue : Value)
  | VoteSettle (currentRound : nat) (consensusValue : Value).

(** [nodeState] and [messageLog] are the closure variables of [node]; [tasks]
    are the suspended activities; [outbox] records every delivery attempt
    made so far, oldest first. *)
Record World : Type := mkWorld {
  nodeState : NodeState;
  messageLog : MessageLog;
  tasks : list Task;
  outbox : list Delivery
}.

Definition setState (w : World) (s : NodeState) : World :=
  mkWorld s (messageLog w) (tasks w) (outbox w).

Definition setLog (w : World) (l : MessageLog) : World :=
  mkWorld (nodeState w) l (tasks w) (outbox w).

Definition setTasks (w : World) (ts : list Task) : World :=
  mkWorld (nodeState w) (messageLog w) ts (outbox w).

Definition setOutbox (w : World) (o : list Delivery) : World :=
  mkWorld (nodeState w) (messageLog w) (tasks w) o.

(** The state right after [node(...)] has built its closure. *)
Definition initialState : NodeState :=
  mkNodeState false
    (if isFaulty cfg then None else Some (initialValue cfg))
    (if isFaulty cfg then None else Some false)
    (if isFaulty cfg then None else Some 1).

Definition initialWorld : World :=
  mkWorld initialState (mkLog ∅ ∅) [] [].

(** JavaScript truthiness of [nodeState.decided]. *)
Definition isDecided (s : NodeState) : bool :=
  match decided s with
  | Some true => true
  | _ => false
  end.

(** [Array.from({ length: N }, (_, i) => i).filter(i => i !== nodeId)] *)
Definition peers : list nat :=
  List.filter (fun i => negb (Nat.eqb i (nodeId cfg))) (seq 0 (Z.to_nat (N cfg))).

(** Lines 61-74: one [fetch] per peer; failures are swallowed. *)
Definition deliverToPeers (w : World) (m : ConsensusMessage) : World :=
  setOutbox w (outbox w ++ List.map (fun i => mkDelivery i m) peers).

(** [broadcastMessage] from its entry to its first suspension or its end.
    [ready] is what [nodesAreReady()] answers in this segment.  The boolean
    of the result tells whether the call has finished ([true]) or sleeps in
    the polling loop ([false]). *)
Definition broadcastMessage (w : World) (m : ConsensusMessage) (ready : bool)
  : World * bool :=
  if killed (nodeState w) || isFaulty cfg then (w, true)
  else if ready then (deliverToPeers w m, true)
  else (w, false).

(** [broadcastMessage] resumed after the 50 ms sleep of its loop (line 58,
    then the loop test of line 56). *)
Definition broadcastResume (w : World) (m : ConsensusMessage) (ready : bool)
  : World * bool :=
  if killed (nodeState w) then (w, true)
  else if ready then (deliverToPeers w m, true)
  else (w, false).

Definition proposalMessage (r : nat) (v : Value) : ConsensusMessage :=
  mkMessage proposal v r (nodeId cfg).

Definition voteMessage (r : nat) (v : Value) : ConsensusMessage :=
  mkMessage vote v r (nodeId cfg).

(** Each of the following gives the new world and the activities that
    replace the resumed one; [None] is a run-time failure. *)

(** Lines 78-98: [runConsensusProtocol] from its entry to its first
    suspension.  A null [k] past the guard does not occur for a non-faulty
    node and is left outside the model ([None]). *)
Definition runConsensusProtocol (w : World) (ready : bool)
  : option (World * list Task) :=
  let s := nodeState w in
  if (N cfg =? 1)%Z then
    Some (setState w (mkNodeState (killed s) (Some (initialValue cfg)) (Some true) (Some 1)), [])
  else if killed s || isFaulty cfg || isDecided s then Some (w, [])
  else
    match k s with
    | None => None
    | Some currentRound =>
        let w1 := setLog w (initializeRoundTracking currentRound (messageLog w)) in
        let proposedValue :=
          match x s with
          | Some v => v
          | None => roundParity currentRound
          end in
        let (w2, finished) :=
          broadcastMessage w1 (proposalMessage currentRound proposedValue) ready in
        Some (w2, [if finished then ProposalSettle currentRound
                   else ProposalGate currentRound proposedValue])
    end.

(** Lines 100-109: after the first settling interval. *)
Definition castVote (w : World) (currentRound : nat) (ready : bool)
  : option (World * list Task) :=
  match determineConsensusValue (messageLog w) currentRound with
  | None => None
  | Some consensusValue =>
      let (w1, finished) :=
        broadcastMessage w (voteMessage currentRound consensusValue) ready in
      Some (w1, [if finished then VoteSettle currentRound consensusValue
                 else VoteGate currentRound consensusValue])
  end.

(** Lines 111-122: after the second settling interval. *)
Definition decideOrAdvance (w : World) (currentRound : nat) (consensusValue : Value)
  : option (World * list Task) :=
  let s := nodeState w in
  match checkFinalDecision (messageLog w) currentRound with
  | None => None
  | Some true =>
      Some (setState w (mkNodeState (killed s) (Some consensusValue) (Some true) (k s)), [])
  | Some false =>
      if negb (isDecided s) then
        Some (setState w (mkNodeState (killed s) (Some (roundParity currentRound))
                                      (decided s) (Some (currentRound + 1))),
              [RunTimer])
      else Some (w, [])
  end.

(** Resumption of one suspended activity. *)
Definition resume (w : World) (t : Task) (ready : bool)
  : option (World * list Task) :=
  match t with
  | RunTimer => runConsensusProtocol w ready
  | ProposalGate r v =>
      let (w1, finished) := broadcastResume w (proposalMessage r v) ready in
      Some (w1, [if finished then ProposalSettle r else ProposalGate r v])
  | ProposalSettle r => castVote w r ready
  | VoteGate r v =>
      let (w1, finished) := broadcastResume w (voteMessage r v) ready in
      Some (w1, [if finished then VoteSettle r v else VoteGate r v])
  | VoteSettle r v => decideOrAdvance w r v
  end.

(** [POST /message] *)
Definition postMessage (w : World) (m : ConsensusMessage) : option World :=
  if killed (nodeState w) || isFaulty cfg then Some w
  else
    let log := initializeRoundTracking (round m) (messageLog w) in
    match type m with
    | proposal =>
        match incrementTally (proposals log) (round m) (value m) with
        | Some p => Some (setLog w (mkLog p (votes log)))
        | None => None
        end
    | vote =>
        match incrementTally (votes log) (round m) (value m) with
        | Some v => Some (setLog w (mkLog (proposals log) v))
        | None => None
        end
    end.

(** [GET /start] *)
Definition getStart (w : World) : World :=
  if isFaulty cfg || killed (nodeState w) then w
  else if negb (isDecided (nodeState w)) then setTasks w (tasks w ++ [RunTimer])
  else w.

(** [GET /stop] *)
Definition getStop (w : World) : World :=
  let s := nodeState w in
  setState w (mkNodeState true (x s) (decided s) (k s)).

(** [GET /getState]: the JSON object sent back. *)
Definition getState (w : World) : NodeState :=
  let s := nodeState w in
  if isFaulty cfg then mkNodeState (killed s) None None None
  else if (N cfg =? 1)%Z then
    mkNodeState (killed s) (Some (initialValue cfg)) (Some true) (Some 1)
  else if isExceedingFaultLimit then
    mkNodeState (killed s) (x s) (Some false)
      (Some (Nat.max (match k s with Some r => r | None => 0 end) 11))
  else s.

(** [GET /status]: [true] for 200 "live", [false] for 500 "faulty". *)
Definition getStatus : bool := negb (isFaulty cfg).

(** What can happen to the node: a request arrives, or the suspended activity
    number [i] is resumed while [nodesAreReady()] answers [ready]. *)
Inductive Event : Type :=
  | Start
  | Stop
  | Message (m : ConsensusMessage)
  | Resume (i : nat) (ready : bool).

Definition step (w : World) (e : Event) : option World :=
  match e with
  | Start => Some (getStart w)
  | Stop => Some (getStop w)
  | Message m => postMessage w m
  | Resume i ready =>
      match tasks w !! i with
      | None => Some w
      | Some t =>
          match resume (setTasks w (delete i (tasks w))) t ready with
          | Some (w1, ts) => Some (setTasks w1 (tasks w1 ++ ts))
          | None => None
          end
      end
  end.

Fixpoint exec (w : World) (es : list Event) : option World :=
  match es with
  | [] => Some w
  | e :: es' =>
      match step w e with
      | Some w1 => exec w1 es'
      | None => None
      end
  end.

End Node.

(** ** Well-formed worlds *)

(** The round a suspended activity will read from the log. *)
Definition taskRound (t : Task) : option nat :=
  match t with
  | RunTimer => None
  | ProposalGate r _ | ProposalSettle r | VoteGate r _ | VoteSettle r _ => Some r
  end.

(** Both tables have an entry for round [r]. *)
Definition tracked (log : MessageLog) (r : nat) : Prop :=
  is_Some (proposals log !! r) ∧ is_Some (votes log !! r).

Definition tasksTracked (log : MessageLog) (ts : list Task) : Prop :=
  Forall (fun t => ∀ r, taskRound t = Some r → tracked log r) ts.

(** What holds in every world the node can be in: a faulty node has no
    suspended activity and has sent nothing; a non-faulty node has a round
    number; every round in flight has its entries in the log. *)
Definition wellFormed (cfg : Config) (w : World) : Prop :=
  (isFaulty cfg = true → tasks w = [] ∧ outbox w = [])
  ∧ (isFaulty cfg = false → is_Some (k (nodeState w)))
  ∧ tasksTracked (messageLog w) (tasks w).

Definition reachable (cfg : Config) (w : World) : Prop :=
  ∃ es, exec cfg (initialWorld cfg) es = Some w.

(** ** Concrete configurations and runs used below *)

(** A world with one tracked round and given tallies. *)
Definition tallyWorld (r : nat) (p v : Buckets) : World :=
  mkWorld (mkNodeState false (Some V1) (Some false) (Some r))
          (mkLog {[ r := p ]} {[ r := v ]}) [] [].

Definition fourNodes : Config := mkConfig 0 4 1 V0 false.

Definition threeNodes : Config := mkConfig 0 3 0 V0 false.

Definition singleNodeOneFault : Config := mkConfig 0 1 1 V0 false.

(** Node 0 of three, itself faulty, with two faults configured. *)
Definition faultyOfThree : Config := mkConfig 0 3 2 V0 true.

(** A run of node 0 of four: round 1 ends undecided; in round 2 one peer
    proposal for 1 arrives before the candidate is computed, and two peer
    votes for 0 arrive before the round ends. *)
Definition runVotesForZero : list Event :=
  [ Start;
    Resume 0 true; Resume 0 true; Resume 0 true;
    Resume 0 true;
    Message (mkMessage proposal V1 2 1);
    Resume 0 true;
    Message (mkMessage vote V0 2 1);
    Message (mkMessage vote V0 2 2);
    Resume 0 true ].

(** Two start requests before the first round has begun give two concurrent
    runs of the round function.  Both go through round 1 and enter round 2.
    The first computes its candidate (0, by parity) before a peer proposal
    for 1 arrives, the second after it (1).  Then a peer vote for 0 arrives,
    and the first run ends its round. *)
Definition runTwoStarts : list Event :=
  [ Start; Start;
    Resume 0 true; Resume 0 true;
    Resume 0 true; Resume 0 true;
    Resume 0 true; Resume 0 true;
    Resume 0 true; Resume 0 true;
    Resume 0 true;
    Message (mkMessage proposal V1 2 1);
    Resume 0 true;
    Message (mkMessage vote V0 2 1);
    Resume 0 true ].

(** ** Notions used to state properties of whole runs *)

(** The two binary values; the sentinel "?" is the third. *)
Definition binary (v : Value) : Prop := v = V0 ∨ v = V1.

(** What a suspended activity may carry: a round number from 1 on, and for
    the vote phase a binary candidate. *)
Definition taskSound (t : Task) : Prop :=
  match t with
  | RunTimer => True
  | ProposalGate r _ | ProposalSettle r => 1 ≤ r
  | VoteGate r v | VoteSettle r v => 1 ≤ r ∧ binary v
  end.

(** A delivery attempt goes to a peer other than the node itself, carries
    the node's id as sender and a round number from 1 on, and a vote carries
    a binary value. *)
Definition wellAddressed (cfg : Config) (d : Delivery) : Prop :=
  target d ≠ nodeId cfg
  ∧ (Z.of_nat (target d) < N cfg)%Z
  ∧ sender (payload d) = nodeId cfg
  ∧ 1 ≤ round (payload d)
  ∧ (type (payload d) = vote → binary (value (payload d))).

(** The fields of a non-faulty node are never null, its round number is at
    least 1; what is in flight and what was sent is as described above; and
    a decided value is binary unless [N] is 1. *)
Definition sound (cfg : Config) (w : World) : Prop :=
  (isFaulty cfg = false →
   is_Some (x (nodeState w)) ∧ is_Some (decided (nodeState w))
   ∧ ∃ r, k (nodeState w) = Some r ∧ 1 ≤ r)
  ∧ Forall taskSound (tasks w)
  ∧ Forall (wellAddressed cfg) (outbox w)
  ∧ (N cfg ≠ 1%Z → decided (nodeState w) = Some true →
     ∃ v, x (nodeState w) = Some v ∧ binary v).

(** The segments a suspended activity of a killed node still has to run. *)
Definition taskWeight (t : Task) : nat :=
  match t with
  | RunTimer => 1
  | VoteSettle _ _ => 2
  | VoteGate _ _ | ProposalSettle _ => 3
  | ProposalGate _ _ => 4
  end.

Definition pendingWork (ts : list Task) : nat := sum_list_with taskWeight ts.

Definition isStart (e : Event) : bool :=
  match e with
  | Start => true
  | _ => false
  end.

Definition isStop (e : Event) : bool :=
  match e with
  | Stop => true
  | _ => false
  end.

(** The number of start requests in a run. *)
Definition countStarts (es : list Event) : nat :=
  length (List.filter isStart es).

(** Whether an event is the arrival of a message for the counter
    (type, round, value). *)
Definition arrives (ty : MessageType) (r : nat) (v : Value) (e : Event) : bool :=
  match e with
  | Message m =>
      bool_decide (type m = ty) && Nat.eqb (round m) r && bool_decide (value m = v)
  | _ => false
  end.

(** The number of such arrivals in a run. *)
Definition arrivals (ty : MessageType) (r : nat) (v : Value) (es : list Event) : nat :=
  length (List.filter (arrives ty r v) es).

(** A log in which every counter is 0: no message has been received. *)
Definition silentLog (log : MessageLog) : Prop :=
  ∀ ty r v, countOf log ty r v = 0.

(** The part of a run that precedes its first stop request. *)
Fixpoint untilStop (es : list Event) : list Event :=
  match es with
  | [] => []
  | e :: es' => if isStop e then [] else e :: untilStop es'
  end.

(** From [log] to [log'] no entry has been dropped and no counter has
    decreased. *)
Definition logGrows (log log' : MessageLog) : Prop :=
  (∀ ty r, is_Some (table log ty !! r) → is_Some (table log' ty !! r))
  ∧ (∀ ty r v, countOf log ty r v ≤ countOf log' ty r v).

(** At most one round function is in flight, it works on the node's current
    round, and with [N = 1] the round number is 1 and only timers are
    pending. *)
Definition singleRun (cfg : Config) (w : World) : Prop :=
  length (tasks w) ≤ 1
  ∧ (∀ t r, In t (tasks w) → taskRound t = Some r → k (nodeState w) = Some r)
  ∧ (N cfg = 1%Z →
     k (nodeState w) = Some 1 ∧ Forall (fun t => t = RunTimer) (tasks w)).

(** The candidate [cv] of round [r] was computed during the run [es]: at
    some point of the run, [determineConsensusValue] gave [cv] for round [r]
    on the log as it stood then. *)
Definition candidateAt (cfg : Config) (es : list Event) (r : nat) (cv : Value) : Prop :=
  ∃ es1 es2 w0,
    es = es1 ++ es2
    ∧ exec cfg (initialWorld cfg) es1 = Some w0
    ∧ determineConsensusValue (messageLog w0) r = Some cv.

(** Every candidate carried by a suspended vote phase was computed during
    the run. *)
Definition votesTraced (cfg : Config) (es : list Event) (ts : list Task) : Prop :=
  Forall (fun t => ∀ r cv, t = VoteSettle r cv ∨ t = VoteGate r cv →
                           candidateAt cfg es r cv) ts.

(** The events of [n] whole rounds of a single run whose peers are ready and
    silent: three resumptions per round. *)
Definition quietRounds (n : nat) : list Event :=
  List.concat (List.repeat [Resume 0 true; Resume 0 true; Resume 0 true] n).

(** ** Basic facts about the tally *)

Lemma roundParity_even (r : nat) : r mod 2 = 0 → roundParity r = V0.
Proof. unfold roundParity. intros ->. reflexivity. Qed.

Lemma roundParity_odd (r : nat) : r mod 2 = 1 → roundParity r = V1.
Proof. unfold roundParity. intros ->. reflexivity. Qed.

Lemma roundParity_binary (r : nat) : roundParity r = V0 ∨ roundParity r = V1.
Proof. unfold roundParity. destruct (Nat.eqb (r mod 2) 0); auto. Qed.

Lemma ensureRound_present (tbl : gmap nat Buckets) (r : nat) :
  is_Some (ensureRound tbl r !! r).
Proof.
  unfold ensureRound. destruct (tbl !! r) as [b|] eqn:E.
  - rewrite E. eauto.
  - rewrite lookup_insert_eq. eauto.
Qed.

Lemma ensureRound_keeps (tbl : gmap nat Buckets) (r r' : nat) (b : Buckets) :
  tbl !! r' = Some b → ensureRound tbl r !! r' = Some b.
Proof.
  intros H. unfold ensureRound. destruct (tbl !! r) as [b0|] eqn:E; [exact H|].
  rewrite lookup_insert_ne; [exact H|]. intros ->. congruence.
Qed.

Lemma ensureRound_other (tbl : gmap nat Buckets) (r r' : nat) :
  r ≠ r' → ensureRound tbl r !! r' = tbl !! r'.
Proof.
  intros H. unfold ensureRound. destruct (tbl !! r); [reflexivity|].
  by rewrite lookup_insert_ne.
Qed.

Lemma ensureRound_fresh (tbl : gmap nat Buckets) (r : nat) :
  tbl !! r = None → ensureRound tbl r !! r = Some zeroBuckets.
Proof. intros H. unfold ensureRound. rewrite H. apply lookup_insert_eq. Qed.

(** Creating a zero-filled entry changes no counter. *)
Lemma ensureRound_count (tbl : gmap nat Buckets) (r r' : nat) (v : Value) :
  match ensureRound tbl r !! r' with Some b => bucketGet b v | None => 0 end
  = match tbl !! r' with Some b => bucketGet b v | None => 0 end.
Proof.
  destruct (decide (r = r')) as [<-|Hne].
  - destruct (tbl !! r) as [b|] eqn:E.
    + by rewrite (ensureRound_keeps _ _ _ _ E).
    + rewrite (ensureRound_fresh _ _ E). by destruct v.
  - by rewrite ensureRound_other.
Qed.

Lemma bucketGet_incr (b : Buckets) (v v' : Value) :
  bucketGet (bucketIncr b v) v'
  = if decide (v' = v) then S (bucketGet b v') else bucketGet b v'.
Proof. destruct v, v'; reflexivity. Qed.

Lemma bucketGet_default (o : option Buckets) (v : Value) :
  bucketGet (default zeroBuckets o) v
  = match o with Some b => bucketGet b v | None => 0 end.
Proof. destruct o, v; reflexivity. Qed.

(** ** The candidate value (determineConsensusValue) *)

(** C5: for every round and every proposal tally of that round, the candidate
    is the value with the strictly higher proposal count, and the parity of
    the round number when the two counts are equal (both 0 included). *)
Theorem determineConsensusValue_spec (log : MessageLog) (r : nat) (p : Buckets) :
  proposals log !! r = Some p →
  ∃ v, determineConsensusValue log r = Some v
       ∧ (count1 p < count0 p → v = V0)
       ∧ (count0 p < count1 p → v = V1)
       ∧ (count0 p = count1 p → r mod 2 = 0 → v = V0)
       ∧ (count0 p = count1 p → r mod 2 = 1 → v = V1)
       ∧ (count0 p = 0 → count1 p = 0 → v = roundParity r).
Proof.
  intros Hp. unfold determineConsensusValue. rewrite Hp.
  eexists. split; [reflexivity|].
  destruct (Nat.ltb_spec (count1 p) (count0 p)) as [H10|H10];
    destruct (Nat.ltb_spec (count0 p) (count1 p)) as [H01|H01];
    repeat split; intros; try lia; try reflexivity;
    auto using roundParity_even, roundParity_odd.
Qed.

Lemma determineConsensusValue_spec_witness :
  ∃ v, determineConsensusValue (mkLog {[ 3 := mkBuckets 2 2 0 ]} ∅) 3 = Some v
       ∧ (2 < 2 → v = V0) ∧ (2 < 2 → v = V1)
       ∧ (2 = 2 → 3 mod 2 = 0 → v = V0)
       ∧ (2 = 2 → 3 mod 2 = 1 → v = V1)
       ∧ (2 = 0 → 2 = 0 → v = roundParity 3).
Proof.
  apply (determineConsensusValue_spec
           (mkLog {[ 3 := mkBuckets 2 2 0 ]} ∅) 3 (mkBuckets 2 2 0)).
  reflexivity.
Defined.

(** ** The end of a round (checkFinalDecision, lines 111-122) *)

Lemma checkFinalDecision_true_iff (cfg : Config) (log : MessageLog) (r : nat) (v : Buckets) :
  votes log !! r = Some v →
  checkFinalDecision cfg log r = Some true
  ↔ 2 ≤ r ∧ ((N cfg / 2 ≤ Z.of_nat (count0 v))%Z ∨ (N cfg / 2 ≤ Z.of_nat (count1 v))%Z).
Proof.
  intros Hv. unfold checkFinalDecision. rewrite Hv.
  destruct (Z.leb_spec (N cfg / 2) (Z.of_nat (count0 v)));
    destruct (Z.leb_spec (N cfg / 2) (Z.of_nat (count1 v)));
    destruct (Nat.leb_spec 2 r); simpl; split;
    first [ intros _; lia | reflexivity | discriminate | intros; exfalso; lia ].
Qed.

Lemma checkFinalDecision_total (cfg : Config) (log : MessageLog) (r : nat) (v : Buckets) :
  votes log !! r = Some v → ∃ b, checkFinalDecision cfg log r = Some b.
Proof. intros Hv. unfold checkFinalDecision. rewrite Hv. eauto. Qed.

(** The two outcomes of the last segment of a round on an undecided node. *)
Lemma decideOrAdvance_outcome (cfg : Config) (w : World) (r : nat) (cv : Value) (v : Buckets) :
  decided (nodeState w) = Some false →
  votes (messageLog w) !! r = Some v →
  ∃ w' ts,
    decideOrAdvance cfg w r cv = Some (w', ts)
    ∧ (decided (nodeState w') = Some true
       ↔ 2 ≤ r ∧ ((N cfg / 2 ≤ Z.of_nat (count0 v))%Z
                  ∨ (N cfg / 2 ≤ Z.of_nat (count1 v))%Z))
    ∧ (decided (nodeState w') = Some true →
       x (nodeState w') = Some cv ∧ k (nodeState w') = k (nodeState w)
       ∧ ts = [] ∧ tasks w' = tasks w)
    ∧ (decided (nodeState w') ≠ Some true →
       x (nodeState w') = Some (roundParity r) ∧ k (nodeState w') = Some (r + 1)
       ∧ ts = [RunTimer] ∧ tasks w' = tasks w).
Proof.
  intros Hd Hv.
  pose proof (checkFinalDecision_true_iff cfg _ _ _ Hv) as Hiff.
  destruct (checkFinalDecision_total cfg _ _ _ Hv) as [b Hb].
  unfold decideOrAdvance. rewrite Hb. unfold isDecided. rewrite Hd.
  destruct b; simpl; do 2 eexists; (split; [reflexivity|]); simpl.
  - split; [|split].
    + split; [intros _; by apply Hiff|reflexivity].
    + auto.
    + congruence.
  - split; [|split].
    + split; [congruence|]. intros H. apply Hiff in H. congruence.
    + congruence.
    + auto.
Qed.

(** C1: on an undecided node the step that ends round [r] finalizes a
    decision exactly when [r >= 2] and the vote tally of 0 or of 1 for round
    [r] is at least [floor(N/2)].  With the tally of 0 equal to [floor(N/2)]
    the node decides in a round [>= 2], and in round 1 it stays undecided and
    moves to round 2.  (The step does not read the killed flag, the fault
    flag or the size of [N], so the statement needs no assumption on them.) *)
Theorem decideOrAdvance_finalizes_iff
    (cfg : Config) (w : World) (r : nat) (cv : Value) (v : Buckets) :
  decided (nodeState w) = Some false →
  votes (messageLog w) !! r = Some v →
  ∃ w' ts,
    decideOrAdvance cfg w r cv = Some (w', ts)
    ∧ (decided (nodeState w') = Some true
       ↔ 2 ≤ r ∧ ((N cfg / 2 ≤ Z.of_nat (count0 v))%Z
                  ∨ (N cfg / 2 ≤ Z.of_nat (count1 v))%Z))
    ∧ (Z.of_nat (count0 v) = (N cfg / 2)%Z → 2 ≤ r →
       decided (nodeState w') = Some true
       ∧ k (nodeState w') = k (nodeState w) ∧ ts = [])
    ∧ (Z.of_nat (count0 v) = (N cfg / 2)%Z → r = 1 →
       decided (nodeState w') = Some false
       ∧ k (nodeState w') = Some 2 ∧ ts = [RunTimer]).
Proof.
  intros Hd Hv.
  pose proof (checkFinalDecision_true_iff cfg _ _ _ Hv) as Hiff.
  destruct (checkFinalDecision_total cfg _ _ _ Hv) as [b Hb].
  unfold decideOrAdvance. rewrite Hb. unfold isDecided. rewrite Hd.
  destruct b; simpl.
  - do 2 eexists. split; [reflexivity|]. simpl.
    assert (Hr : 2 ≤ r ∧ ((N cfg / 2 ≤ Z.of_nat (count0 v))%Z
                          ∨ (N cfg / 2 ≤ Z.of_nat (count1 v))%Z))
      by (apply Hiff; exact Hb).
    repeat split; try tauto; intros; lia.
  - do 2 eexists. split; [reflexivity|]. simpl.
    assert (Hn : ¬ (2 ≤ r ∧ ((N cfg / 2 ≤ Z.of_nat (count0 v))%Z
                             ∨ (N cfg / 2 ≤ Z.of_nat (count1 v))%Z))).
    { intros H. apply Hiff in H. congruence. }
    repeat split; try (subst; reflexivity); try assumption.
    all: try (intros; exfalso; apply Hn; split; [assumption|left; lia]).
    all: congruence.
Qed.

Lemma decideOrAdvance_finalizes_iff_witness :
  ∃ w' ts,
    decideOrAdvance (mkConfig 0 4 1 V0 false)
      (tallyWorld 2 zeroBuckets (mkBuckets 2 0 0)) 2 V0 = Some (w', ts)
    ∧ decided (nodeState w') = Some true ∧ ts = [].
Proof.
  destruct (decideOrAdvance_finalizes_iff (mkConfig 0 4 1 V0 false)
              (tallyWorld 2 zeroBuckets (mkBuckets 2 0 0)) 2 V0 (mkBuckets 2 0 0)
              eq_refl eq_refl)
    as (w' & ts & He & _ & Hd & _).
  exists w', ts. split; [exact He|].
  destruct (Hd eq_refl (le_n 2)) as (H1 & _ & H3). split; assumption.
Defined.

(** C4: when the round [r] ends without the finalization condition and the
    node is undecided, the round number becomes exactly [r + 1], the working
    value becomes the parity of [r] (whatever the candidate [cv] was), and
    one new run of the round function is scheduled. *)
Theorem decideOrAdvance_advances (cfg : Config) (w : World) (r : nat) (cv : Value) :
  checkFinalDecision cfg (messageLog w) r = Some false →
  decided (nodeState w) = Some false →
  ∃ w',
    decideOrAdvance cfg w r cv = Some (w', [RunTimer])
    ∧ k (nodeState w') = Some (r + 1)
    ∧ x (nodeState w') = Some (roundParity r)
    ∧ (r mod 2 = 0 → x (nodeState w') = Some V0)
    ∧ (r mod 2 = 1 → x (nodeState w') = Some V1)
    ∧ decided (nodeState w') = Some false
    ∧ killed (nodeState w') = killed (nodeState w)
    ∧ messageLog w' = messageLog w
    ∧ outbox w' = outbox w.
Proof.
  intros Hc Hd. unfold decideOrAdvance. rewrite Hc. unfold isDecided.
  rewrite Hd. simpl. eexists. split; [reflexivity|]. simpl.
  repeat split; try assumption.
  - intros H. by rewrite roundParity_even.
  - intros H. by rewrite roundParity_odd.
Qed.

Lemma decideOrAdvance_advances_witness :
  ∃ w',
    decideOrAdvance (mkConfig 0 4 1 V0 false)
      (tallyWorld 3 (mkBuckets 5 0 0) (mkBuckets 1 0 0)) 3 V0 = Some (w', [RunTimer])
    ∧ k (nodeState w') = Some 4
    ∧ x (nodeState w') = Some V1.
Proof.
  destruct (decideOrAdvance_advances (mkConfig 0 4 1 V0 false)
              (tallyWorld 3 (mkBuckets 5 0 0) (mkBuckets 1 0 0)) 3 V0
              eq_refl eq_refl)
    as (w' & He & Hk & _ & _ & Hx & _).
  exists w'. split; [exact He|]. split; [exact Hk|]. exact (Hx eq_refl).
Defined.

(** ** The decided value *)

(** C2, as stated, fails: the run [runVotesForZero] ends decided with
    [x = 1], although in round 2 only the vote tally of 0 reached
    [floor(4/2) = 2] and the vote tally of 1 is 0. *)
Lemma decided_value_not_threshold_value :
  ∃ w, exec fourNodes (initialWorld fourNodes) runVotesForZero = Some w
       ∧ decided (nodeState w) = Some true
       ∧ k (nodeState w) = Some 2
       ∧ x (nodeState w) = Some V1
       ∧ (N fourNodes / 2)%Z = 2%Z
       ∧ countOf (messageLog w) vote 2 V0 = 2
       ∧ countOf (messageLog w) vote 2 V1 = 0.
Proof. eexists. split; [vm_compute; reflexivity|]. vm_compute. tauto. Qed.

(** C2, amended: when the finalization condition holds at the end of round
    [r], the node sets [decided = true] and fixes [x] to the candidate [cv]
    carried by the round, leaving the round number alone; and that candidate
    is the one [determineConsensusValue] gave from the proposal tallies at
    the moment the vote was cast, whatever the vote tallies are. *)
Theorem decideOrAdvance_fixes_candidate (cfg : Config) (w : World) (r : nat) (cv : Value) :
  checkFinalDecision cfg (messageLog w) r = Some true →
  (∃ w',
     decideOrAdvance cfg w r cv = Some (w', [])
     ∧ decided (nodeState w') = Some true
     ∧ x (nodeState w') = Some cv
     ∧ k (nodeState w') = k (nodeState w)
     ∧ killed (nodeState w') = killed (nodeState w)
     ∧ messageLog w' = messageLog w)
  ∧ (∀ w0 ready w1 ts,
       castVote cfg w0 r ready = Some (w1, ts) →
       ts = [VoteSettle r cv] ∨ ts = [VoteGate r cv] →
       determineConsensusValue (messageLog w0) r = Some cv)
  ∧ (∀ w0 ready w1 ts,
       resume cfg w0 (VoteGate r cv) ready = Some (w1, ts) →
       ts = [VoteSettle r cv] ∨ ts = [VoteGate r cv]).
Proof.
  intros Hc. split; [|split].
  - unfold decideOrAdvance. rewrite Hc. eexists. split; [reflexivity|].
    simpl. repeat split.
  - intros w0 ready w1 ts. unfold castVote.
    destruct (determineConsensusValue (messageLog w0) r) as [c|]; [|discriminate].
    destruct (broadcastMessage cfg w0 (voteMessage cfg r c) ready) as [w2 [|]];
      intros [= <- <-] [[= ->]|[= ->]]; reflexivity || discriminate.
  - intros w0 ready w1 ts. simpl.
    destruct (broadcastResume cfg w0 (voteMessage cfg r cv) ready) as [w2 [|]];
      intros [= <- <-]; auto.
Qed.

Lemma decideOrAdvance_fixes_candidate_witness :
  ∃ w',
    decideOrAdvance fourNodes
      (tallyWorld 2 (mkBuckets 0 1 0) (mkBuckets 2 0 0)) 2 V1 = Some (w', [])
    ∧ decided (nodeState w') = Some true
    ∧ x (nodeState w') = Some V1.
Proof.
  destruct (decideOrAdvance_fixes_candidate fourNodes
              (tallyWorld 2 (mkBuckets 0 1 0) (mkBuckets 2 0 0)) 2 V1 eq_refl)
    as [(w' & He & Hd & Hx & _) _].
  exists w'. auto.
Defined.

(** ** State queries (GET /getState) *)

(** C3, as stated, fails: with [N = 1] and [F = 1] the fault count exceeds
    the threshold [floor(0/2) = 0], and the node reports [decided = true] and
    [k = 1]; with [N = 3] and [F = 2] the fault count exceeds the threshold
    [floor(2/2) = 1], and a faulty node reports null for both fields. *)
Lemma getState_exceeding_not_clamped :
  (isExceedingFaultLimit singleNodeOneFault = true
   ∧ (faultToleranceThreshold singleNodeOneFault < F singleNodeOneFault)%Z
   ∧ decided (getState singleNodeOneFault (initialWorld singleNodeOneFault)) = Some true
   ∧ k (getState singleNodeOneFault (initialWorld singleNodeOneFault)) = Some 1)
  ∧ (isExceedingFaultLimit faultyOfThree = true
     ∧ (faultToleranceThreshold faultyOfThree < F faultyOfThree)%Z
     ∧ decided (getState faultyOfThree (initialWorld faultyOfThree)) = None
     ∧ k (getState faultyOfThree (initialWorld faultyOfThree)) = None).
Proof. vm_compute. tauto. Qed.

(** C3, amended: when [F > floor((N-1)/2)], a node that is not faulty and
    whose [N] is not 1 reports [decided = false] and a round number that is
    the maximum of its own round number and 11, hence at least 11, in every
    internal state; a faulty node reports null for [x], [decided] and [k];
    and a non-faulty node with [N = 1] reports [decided = true],
    [x = initialValue] and [k = 1]. *)
Theorem getState_exceeding_fault_limit (cfg : Config) (w : World) :
  ((N cfg - 1) / 2 < F cfg)%Z →
  (isFaulty cfg = false → N cfg ≠ 1%Z →
   decided (getState cfg w) = Some false
   ∧ (∃ r, k (getState cfg w) = Some r ∧ 11 ≤ r
           ∧ ∀ r0, k (nodeState w) = Some r0 → r = Nat.max r0 11)
   ∧ x (getState cfg w) = x (nodeState w)
   ∧ killed (getState cfg w) = killed (nodeState w))
  ∧ (isFaulty cfg = true →
     getState cfg w = mkNodeState (killed (nodeState w)) None None None)
  ∧ (isFaulty cfg = false → N cfg = 1%Z →
     getState cfg w
     = mkNodeState (killed (nodeState w)) (Some (initialValue cfg)) (Some true) (Some 1)).
Proof.
  intros HF. split; [|split].
  - intros Hf HN. unfold getState. rewrite Hf.
    destruct (Z.eqb_spec (N cfg) 1) as [|_]; [contradiction|].
    unfold isExceedingFaultLimit, faultToleranceThreshold.
    destruct (Z.ltb_spec ((N cfg - 1) / 2) (F cfg)) as [_|]; [|lia].
    simpl. repeat split. eexists. split; [reflexivity|]. split; [lia|].
    intros r0 ->. reflexivity.
  - intros Hf. unfold getState. rewrite Hf. reflexivity.
  - intros Hf HN. unfold getState. rewrite Hf, HN. reflexivity.
Qed.

Lemma getState_exceeding_fault_limit_witness :
  (decided (getState (mkConfig 0 3 2 V1 false) (initialWorld (mkConfig 0 3 2 V1 false)))
   = Some false
   ∧ k (getState (mkConfig 0 3 2 V1 false) (initialWorld (mkConfig 0 3 2 V1 false)))
     = Some 11)
  ∧ getState faultyOfThree (initialWorld faultyOfThree)
    = mkNodeState false None None None
  ∧ getState singleNodeOneFault (initialWorld singleNodeOneFault)
    = mkNodeState false (Some V0) (Some true) (Some 1).
Proof.
  split; [|split].
  - destruct (proj1 (getState_exceeding_fault_limit (mkConfig 0 3 2 V1 false)
                       (initialWorld (mkConfig 0 3 2 V1 false)) eq_refl)
                eq_refl ltac:(discriminate))
      as (Hd & (r & Hk & _ & Hr) & _).
    split; [exact Hd|]. rewrite Hk. f_equal. exact (Hr 1 eq_refl).
  - exact (proj1 (proj2 (getState_exceeding_fault_limit faultyOfThree
                           (initialWorld faultyOfThree) eq_refl)) eq_refl).
  - exact (proj2 (proj2 (getState_exceeding_fault_limit singleNodeOneFault
                           (initialWorld singleNodeOneFault) eq_refl))
             eq_refl eq_refl).
Defined.

(** C9: a non-faulty node with [N = 1] reports [decided = true],
    [x = initialValue] and [k = 1] in every internal state: before any
    start, after a stop, and also when [F] exceeds the threshold. *)
Theorem getState_single_node (cfg : Config) (w : World) :
  isFaulty cfg = false →
  N cfg = 1%Z →
  getState cfg w
  = mkNodeState (killed (nodeState w)) (Some (initialValue cfg)) (Some true) (Some 1)
  ∧ getState cfg (initialWorld cfg)
    = mkNodeState false (Some (initialValue cfg)) (Some true) (Some 1)
  ∧ getState cfg (getStop w)
    = mkNodeState true (Some (initialValue cfg)) (Some true) (Some 1).
Proof.
  intros Hf HN. unfold getState. rewrite Hf, HN. simpl. auto.
Qed.

Lemma getState_single_node_witness :
  getState singleNodeOneFault (getStop (initialWorld singleNodeOneFault))
  = mkNodeState true (Some V0) (Some true) (Some 1).
Proof.
  exact (proj2 (proj2 (getState_single_node singleNodeOneFault
                         (initialWorld singleNodeOneFault) eq_refl eq_refl))).
Defined.

(** ** Rounds in flight are tracked in the log *)

Lemma tracked_initialize (log : MessageLog) (r : nat) :
  tracked (initializeRoundTracking r log) r.
Proof. split; apply ensureRound_present. Qed.

Lemma tracked_initialize_mono (log : MessageLog) (r r' : nat) :
  tracked log r' → tracked (initializeRoundTracking r log) r'.
Proof.
  intros [[p Hp] [v Hv]]. split; simpl.
  - rewrite (ensureRound_keeps _ _ _ _ Hp). eauto.
  - rewrite (ensureRound_keeps _ _ _ _ Hv). eauto.
Qed.

Lemma incrementTally_present (tbl : gmap nat Buckets) (r : nat) (v : Value) :
  is_Some (tbl !! r) → is_Some (incrementTally tbl r v).
Proof. intros [b Hb]. unfold incrementTally. rewrite Hb. eauto. Qed.

Lemma incrementTally_lookup (tbl tbl' : gmap nat Buckets) (r r' : nat) (v : Value) :
  incrementTally tbl r v = Some tbl' →
  tbl' !! r' = if decide (r = r') then (fun b => bucketIncr b v) <$> (tbl !! r')
               else tbl !! r'.
Proof.
  unfold incrementTally. destruct (tbl !! r) as [b|] eqn:E; [|discriminate].
  intros [= <-]. case_decide as Hd.
  - subst r'. rewrite lookup_insert_eq, E. reflexivity.
  - by rewrite lookup_insert_ne.
Qed.

(** ** Inbound messages (POST /message) *)

Lemma incrementTally_ensureRound (tbl : gmap nat Buckets) (r : nat) (v : Value) :
  ∃ tbl', incrementTally (ensureRound tbl r) r v = Some tbl'
          ∧ ∀ r', tbl' !! r'
                  = if decide (r = r')
                    then Some (bucketIncr (default zeroBuckets (tbl !! r)) v)
                    else tbl !! r'.
Proof.
  destruct (incrementTally_present (ensureRound tbl r) r v (ensureRound_present tbl r))
    as [tbl' Ht].
  exists tbl'. split; [exact Ht|]. intros r'.
  rewrite (incrementTally_lookup _ _ _ r' _ Ht). case_decide as Hd.
  - subst r'. destruct (tbl !! r) as [b|] eqn:E.
    + by rewrite (ensureRound_keeps _ _ _ _ E).
    + by rewrite (ensureRound_fresh _ _ E).
  - by rewrite ensureRound_other.
Qed.

Lemma postMessage_live (cfg : Config) (w : World) (m : ConsensusMessage) :
  killed (nodeState w) || isFaulty cfg = false →
  ∃ tbl,
    (∀ r', tbl !! r'
           = if decide (round m = r')
             then Some (bucketIncr
                          (default zeroBuckets (table (messageLog w) (type m) !! round m))
                          (value m))
             else table (messageLog w) (type m) !! r')
    ∧ postMessage cfg w m
      = Some (setLog w
                match type m with
                | proposal => mkLog tbl (ensureRound (votes (messageLog w)) (round m))
                | vote => mkLog (ensureRound (proposals (messageLog w)) (round m)) tbl
                end).
Proof.
  intros Hlive. unfold postMessage. rewrite Hlive.
  destruct m as [ty v r s]; simpl. destruct ty; simpl.
  - destruct (incrementTally_ensureRound (proposals (messageLog w)) r v)
      as (tbl & Ht & Hl).
    exists tbl. rewrite Ht. split; [exact Hl|reflexivity].
  - destruct (incrementTally_ensureRound (votes (messageLog w)) r v)
      as (tbl & Ht & Hl).
    exists tbl. rewrite Ht. split; [exact Hl|reflexivity].
Qed.

(** The whole effect of the message handler on the world. *)
Lemma postMessage_effect (cfg : Config) (w : World) (m : ConsensusMessage) :
  (killed (nodeState w) || isFaulty cfg = true → postMessage cfg w m = Some w)
  ∧ (killed (nodeState w) || isFaulty cfg = false →
     ∃ w',
       postMessage cfg w m = Some w'
       ∧ nodeState w' = nodeState w ∧ tasks w' = tasks w ∧ outbox w' = outbox w
       ∧ (∀ ty r v,
            countOf (messageLog w') ty r v
            = if decide (ty = type m ∧ r = round m ∧ v = value m)
              then S (countOf (messageLog w) ty r v)
              else countOf (messageLog w) ty r v)
       ∧ (∀ ty, is_Some (table (messageLog w') ty !! round m))
       ∧ (∀ ty r, r ≠ round m →
            table (messageLog w') ty !! r = table (messageLog w) ty !! r)
       ∧ (∀ ty, table (messageLog w) ty !! round m = None →
            table (messageLog w') ty !! round m
            = Some (if decide (ty = type m)
                    then bucketIncr zeroBuckets (value m) else zeroBuckets))).
Proof.
  split.
  - intros H. unfold postMessage. by rewrite H.
  - intros Hlive. destruct (postMessage_live cfg w m Hlive) as (tbl & Hl & Hp).
    eexists. split; [exact Hp|]. split; [reflexivity|]. split; [reflexivity|].
    split; [reflexivity|].
    assert (Hsame : ∀ ty, ty = type m →
              ∀ r', table (setLog w
                match type m with
                | proposal => mkLog tbl (ensureRound (votes (messageLog w)) (round m))
                | vote => mkLog (ensureRound (proposals (messageLog w)) (round m)) tbl
                end).(messageLog) ty !! r' = tbl !! r').
    { intros ty -> r'. destruct (type m); reflexivity. }
    assert (Hdiff : ∀ ty, ty ≠ type m →
              ∀ r', table (setLog w
                match type m with
                | proposal => mkLog tbl (ensureRound (votes (messageLog w)) (round m))
                | vote => mkLog (ensureRound (proposals (messageLog w)) (round m)) tbl
                end).(messageLog) ty !! r'
              = ensureRound (table (messageLog w) ty) (round m) !! r').
    { intros ty Hne r'. destruct ty, (type m); try congruence; reflexivity. }
    repeat split.
    + intros ty r v. unfold countOf.
      destruct (decide (ty = type m)) as [Hty|Hty].
      * rewrite (Hsame ty Hty), Hl. subst ty.
        destruct (decide (round m = r)) as [<-|Hr].
        -- rewrite bucketGet_incr.
           destruct (decide (v = value m)) as [->|Hv].
           ++ rewrite decide_True by auto.
              by rewrite bucketGet_default.
           ++ rewrite decide_False by tauto.
              by rewrite bucketGet_default.
        -- rewrite decide_False by (intros (_ & -> & _); congruence). reflexivity.
      * rewrite (Hdiff ty Hty), decide_False by tauto. apply ensureRound_count.
    + intros ty. destruct (decide (ty = type m)) as [Hty|Hty].
      * rewrite (Hsame ty Hty), Hl, decide_True by reflexivity. eauto.
      * rewrite (Hdiff ty Hty). apply ensureRound_present.
    + intros ty r Hr. destruct (decide (ty = type m)) as [Hty|Hty].
      * rewrite (Hsame ty Hty), Hl, decide_False by congruence. by subst ty.
      * rewrite (Hdiff ty Hty). by apply ensureRound_other.
    + intros ty Hnone. destruct (decide (ty = type m)) as [Hty|Hty].
      * rewrite (Hsame ty Hty), Hl, decide_True by reflexivity.
        subst ty. by rewrite Hnone.
      * rewrite (Hdiff ty Hty). by apply ensureRound_fresh.
Qed.

(** C7: a killed or faulty node leaves the whole world, hence the message
    log, unchanged and reports no error; any other node adds exactly one to
    the counter of the message's (type, round, value) and changes no other
    counter; afterwards both tables have an entry for the message's round,
    which for a round not seen before is the zero-filled bucket set (with the
    one increment in the table of the message's type), and the entries of
    all other rounds are untouched. *)
Theorem postMessage_spec (cfg : Config) (w : World) (m : ConsensusMessage) :
  (killed (nodeState w) || isFaulty cfg = true → postMessage cfg w m = Some w)
  ∧ (killed (nodeState w) || isFaulty cfg = false →
     ∃ w',
       postMessage cfg w m = Some w'
       ∧ nodeState w' = nodeState w ∧ tasks w' = tasks w ∧ outbox w' = outbox w
       ∧ (∀ ty r v,
            countOf (messageLog w') ty r v
            = if decide (ty = type m ∧ r = round m ∧ v = value m)
              then S (countOf (messageLog w) ty r v)
              else countOf (messageLog w) ty r v)
       ∧ (∀ ty, is_Some (table (messageLog w') ty !! round m))
       ∧ (∀ ty r, r ≠ round m →
            table (messageLog w') ty !! r = table (messageLog w) ty !! r)
       ∧ (∀ ty, table (messageLog w) ty !! round m = None →
            table (messageLog w') ty !! round m
            = Some (if decide (ty = type m)
                    then bucketIncr zeroBuckets (value m) else zeroBuckets))).
Proof. exact (postMessage_effect cfg w m). Qed.

Lemma postMessage_spec_witness :
  ∃ w',
    postMessage fourNodes (initialWorld fourNodes) (mkMessage vote V1 7 2) = Some w'
    ∧ countOf (messageLog w') vote 7 V1 = 1
    ∧ countOf (messageLog w') proposal 7 V1 = 0
    ∧ table (messageLog w') proposal !! 7 = Some zeroBuckets.
Proof.
  destruct (proj2 (postMessage_spec fourNodes (initialWorld fourNodes)
                     (mkMessage vote V1 7 2)) eq_refl)
    as (w' & Hp & _ & _ & _ & Hc & _ & _ & Hf).
  exists w'. split; [exact Hp|]. split; [exact (Hc vote 7 V1)|].
  split; [exact (Hc proposal 7 V1)|]. exact (Hf proposal eq_refl).
Defined.

(** ** Outbound messages (broadcastMessage) *)

Lemma broadcastMessage_frame (cfg : Config) (w w' : World) (m : ConsensusMessage)
    (ready finished : bool) :
  broadcastMessage cfg w m ready = (w', finished) →
  nodeState w' = nodeState w ∧ messageLog w' = messageLog w ∧ tasks w' = tasks w.
Proof.
  unfold broadcastMessage.
  destruct (killed (nodeState w) || isFaulty cfg), ready; intros [= <- <-]; auto.
Qed.

Lemma broadcastResume_frame (cfg : Config) (w w' : World) (m : ConsensusMessage)
    (ready finished : bool) :
  broadcastResume cfg w m ready = (w', finished) →
  nodeState w' = nodeState w ∧ messageLog w' = messageLog w ∧ tasks w' = tasks w.
Proof.
  unfold broadcastResume.
  destruct (killed (nodeState w)), ready; intros [= <- <-]; auto.
Qed.

Lemma broadcastMessage_silent (cfg : Config) (w : World) (m : ConsensusMessage)
    (ready : bool) :
  killed (nodeState w) || isFaulty cfg = true →
  broadcastMessage cfg w m ready = (w, true).
Proof. intros H. unfold broadcastMessage. by rewrite H. Qed.

Lemma broadcastResume_silent (cfg : Config) (w : World) (m : ConsensusMessage)
    (ready : bool) :
  killed (nodeState w) = true → broadcastResume cfg w m ready = (w, true).
Proof. intros H. unfold broadcastResume. by rewrite H. Qed.

(** A killed node sends nothing, whichever suspended activity is resumed. *)
Lemma resume_killed_outbox (cfg : Config) (w w' : World) (t : Task) (ready : bool)
    (ts : list Task) :
  killed (nodeState w) = true →
  resume cfg w t ready = Some (w', ts) →
  outbox w' = outbox w.
Proof.
  intros Hk. destruct t as [|r v|r|r v|r v]; simpl.
  - unfold runConsensusProtocol. rewrite Hk. simpl.
    destruct (N cfg =? 1)%Z; intros [= <- _]; reflexivity.
  - rewrite broadcastResume_silent by exact Hk. intros [= <- _]. reflexivity.
  - unfold castVote.
    destruct (determineConsensusValue (messageLog w) r); [|discriminate].
    rewrite broadcastMessage_silent by (rewrite Hk; reflexivity).
    intros [= <- _]. reflexivity.
  - rewrite broadcastResume_silent by exact Hk. intros [= <- _]. reflexivity.
  - unfold decideOrAdvance.
    destruct (checkFinalDecision cfg (messageLog w) r) as [[|]|]; [| |discriminate].
    + intros [= <- _]. reflexivity.
    + destruct (negb (isDecided (nodeState w))); intros [= <- _]; reflexivity.
Qed.

Lemma step_killed_outbox (cfg : Config) (w w' : World) (e : Event) :
  killed (nodeState w) = true →
  step cfg w e = Some w' →
  outbox w' = outbox w.
Proof.
  intros Hk. destruct e as [| |m|i ready]; simpl.
  - intros [= <-]. unfold getStart. rewrite Hk, orb_true_r. reflexivity.
  - intros [= <-]. reflexivity.
  - unfold postMessage. rewrite Hk. simpl. intros [= <-]. reflexivity.
  - destruct (tasks w !! i) as [t|]; [|intros [= <-]; reflexivity].
    destruct (resume cfg (setTasks w (delete i (tasks w))) t ready)
      as [[w1 ts]|] eqn:E; [|discriminate].
    intros [= <-]. simpl.
    apply (resume_killed_outbox cfg (setTasks w (delete i (tasks w))) _ _ _ _ Hk E).
Qed.

(** ** Every step of a well-formed world succeeds and keeps it well-formed *)

Lemma resume_wellFormed (cfg : Config) (w : World) (t : Task) (ready : bool) :
  isFaulty cfg = false →
  is_Some (k (nodeState w)) →
  (∀ r, taskRound t = Some r → tracked (messageLog w) r) →
  ∃ w' ts,
    resume cfg w t ready = Some (w', ts)
    ∧ is_Some (k (nodeState w'))
    ∧ tasks w' = tasks w
    ∧ (∀ r, tracked (messageLog w) r → tracked (messageLog w') r)
    ∧ tasksTracked (messageLog w') ts.
Proof.
  intros Hf [r0 Hk] Ht. unfold tasksTracked.
  destruct t as [|r v|r|r v|r v]; simpl.
  - unfold runConsensusProtocol.
    destruct (N cfg =? 1)%Z.
    { do 2 eexists. split; [reflexivity|]. simpl. eauto 6. }
    destruct (killed (nodeState w) || isFaulty cfg || isDecided (nodeState w)).
    { do 2 eexists. split; [reflexivity|]. rewrite Hk. eauto 6. }
    rewrite Hk.
    destruct (broadcastMessage cfg
                (setLog w (initializeRoundTracking r0 (messageLog w)))
                (proposalMessage cfg r0
                   match x (nodeState w) with
                   | Some v => v
                   | None => roundParity r0
                   end) ready) as [w2 fin] eqn:E.
    apply broadcastMessage_frame in E as (Hs & Hl & Hts).
    do 2 eexists. split; [reflexivity|]. rewrite Hs, Hl, Hts. simpl.
    rewrite Hk. split; [eauto|]. split; [reflexivity|].
    split; [intros r; apply tracked_initialize_mono|].
    constructor; [|constructor].
    intros r. destruct fin; intros [= <-]; apply tracked_initialize.
  - destruct (broadcastResume cfg w (proposalMessage cfg r v) ready) as [w1 fin] eqn:E.
    apply broadcastResume_frame in E as (Hs & Hl & Hts).
    do 2 eexists. split; [reflexivity|]. rewrite Hs, Hl, Hts, Hk.
    split; [eauto|]. split; [reflexivity|]. split; [auto|].
    constructor; [|constructor].
    intros r'. destruct fin; intros [= <-]; apply Ht; reflexivity.
  - unfold castVote. destruct (Ht r eq_refl) as [[p Hp] _].
    unfold determineConsensusValue. rewrite Hp.
    match goal with
    | |- context [broadcastMessage cfg w ?m ready] =>
        destruct (broadcastMessage cfg w m ready) as [w1 fin] eqn:E
    end.
    apply broadcastMessage_frame in E as (Hs & Hl & Hts).
    do 2 eexists. split; [reflexivity|]. rewrite Hs, Hl, Hts, Hk.
    split; [eauto|]. split; [reflexivity|]. split; [auto|].
    constructor; [|constructor].
    intros r'. destruct fin; intros [= <-]; apply Ht; reflexivity.
  - destruct (broadcastResume cfg w (voteMessage cfg r v) ready) as [w1 fin] eqn:E.
    apply broadcastResume_frame in E as (Hs & Hl & Hts).
    do 2 eexists. split; [reflexivity|]. rewrite Hs, Hl, Hts, Hk.
    split; [eauto|]. split; [reflexivity|]. split; [auto|].
    constructor; [|constructor].
    intros r'. destruct fin; intros [= <-]; apply Ht; reflexivity.
  - unfold decideOrAdvance. destruct (Ht r eq_refl) as [_ [b Hb]].
    destruct (checkFinalDecision_total cfg _ _ _ Hb) as [c ->].
    destruct c.
    + do 2 eexists. split; [reflexivity|]. simpl. rewrite Hk.
      split; [eauto|]. split; [reflexivity|]. split; [auto|]. constructor.
    + destruct (negb (isDecided (nodeState w))).
      * do 2 eexists. split; [reflexivity|]. simpl.
        split; [eauto|]. split; [reflexivity|]. split; [auto|].
        constructor; [|constructor]. intros r'. discriminate.
      * do 2 eexists. split; [reflexivity|]. rewrite Hk.
        split; [eauto|]. split; [reflexivity|]. split; [auto|]. constructor.
Qed.

Lemma tasksTracked_mono (log log' : MessageLog) (ts : list Task) :
  (∀ r, tracked log r → tracked log' r) →
  tasksTracked log ts → tasksTracked log' ts.
Proof.
  intros Hm Hts. unfold tasksTracked in *.
  eapply Forall_impl; [exact Hts|]. intros t Ht r Hr. auto.
Qed.

Lemma postMessage_tracked (cfg : Config) (w w' : World) (m : ConsensusMessage) (r : nat) :
  postMessage cfg w m = Some w' →
  tracked (messageLog w) r → tracked (messageLog w') r.
Proof.
  destruct (killed (nodeState w) || isFaulty cfg) eqn:Hlive.
  - rewrite (proj1 (postMessage_effect cfg w m) Hlive). by intros [= <-].
  - destruct (proj2 (postMessage_effect cfg w m) Hlive)
      as (w1 & Hp & _ & _ & _ & _ & Hpres & Hother & _).
    rewrite Hp. intros [= <-] [Hpr Hvo].
    destruct (decide (r = round m)) as [->|Hne].
    + split; [apply (Hpres proposal)|apply (Hpres vote)].
    + split.
      * change (is_Some (table (messageLog w1) proposal !! r)).
        by rewrite (Hother proposal r Hne).
      * change (is_Some (table (messageLog w1) vote !! r)).
        by rewrite (Hother vote r Hne).
Qed.

Lemma initialWorld_wellFormed (cfg : Config) : wellFormed cfg (initialWorld cfg).
Proof.
  split; [|split].
  - auto.
  - intros Hf. simpl. rewrite Hf. eauto.
  - constructor.
Qed.

Lemma step_wellFormed (cfg : Config) (w : World) (e : Event) :
  wellFormed cfg w →
  ∃ w', step cfg w e = Some w' ∧ wellFormed cfg w'.
Proof.
  intros Hw. pose proof Hw as (Hfa & Hk & Hts).
  destruct e as [| |m|i ready]; simpl.
  - eexists. split; [reflexivity|]. unfold getStart.
    destruct (isFaulty cfg || killed (nodeState w)) eqn:Hg; [exact Hw|].
    destruct (negb (isDecided (nodeState w))); [|exact Hw].
    apply orb_false_iff in Hg as [Hf _].
    split; [congruence|]. split; [exact Hk|]. simpl.
    apply Forall_app. split; [exact Hts|]. constructor; [|constructor].
    intros r. discriminate.
  - eexists. split; [reflexivity|].
    split; [exact Hfa|]. split; [exact Hk|exact Hts].
  - destruct (killed (nodeState w) || isFaulty cfg) eqn:Hlive.
    + rewrite (proj1 (postMessage_effect cfg w m) Hlive). eauto.
    + destruct (proj2 (postMessage_effect cfg w m) Hlive)
        as (w1 & Hp & Hs & Ht & Ho & _).
      exists w1. split; [exact Hp|]. split; [|split].
      * rewrite Ht, Ho. exact Hfa.
      * rewrite Hs. exact Hk.
      * rewrite Ht. apply (tasksTracked_mono (messageLog w)); [|exact Hts].
        intros r. apply (postMessage_tracked cfg w w1 m r Hp).
  - destruct (tasks w !! i) as [t|] eqn:Ei; [|eauto].
    assert (Hf : isFaulty cfg = false).
    { destruct (isFaulty cfg) eqn:Hf; [|reflexivity].
      destruct (Hfa eq_refl) as [Hnil _]. rewrite Hnil in Ei. discriminate. }
    assert (Ht : ∀ r, taskRound t = Some r → tracked (messageLog w) r).
    { unfold tasksTracked in Hts. rewrite Forall_lookup in Hts. exact (Hts i t Ei). }
    destruct (resume_wellFormed cfg (setTasks w (delete i (tasks w))) t ready
                Hf (Hk Hf) Ht)
      as (w1 & ts & Hr & Hk1 & Hts1 & Hmono & Hnew).
    rewrite Hr. eexists. split; [reflexivity|]. split; [congruence|].
    split; [intros _; exact Hk1|]. simpl. rewrite Hts1. simpl.
    apply Forall_app. split; [|exact Hnew].
    apply (tasksTracked_mono (messageLog w)); [exact Hmono|].
    by apply Forall_delete.
Qed.

Lemma exec_wellFormed (cfg : Config) (es : list Event) (w : World) :
  wellFormed cfg w →
  ∃ w', exec cfg w es = Some w' ∧ wellFormed cfg w'.
Proof.
  revert w. induction es as [|e es IH]; intros w Hw; simpl.
  - eauto.
  - destruct (step_wellFormed cfg w e Hw) as (w1 & -> & Hw1). auto.
Qed.

Lemma reachable_wellFormed (cfg : Config) (w : World) :
  reachable cfg w → wellFormed cfg w.
Proof.
  intros [es He].
  destruct (exec_wellFormed cfg es _ (initialWorld_wellFormed cfg)) as (w' & He' & Hw).
  congruence.
Qed.

(** C10: right after [initializeRoundTracking] for a round, the three
    accesses to that round's buckets are defined; and along every run of the
    node from its initial world no step fails: every round that a suspended
    round function will read has its entries in both tables, and the message
    handler increments an entry it has just created or found. *)
Theorem tally_access_after_initialization (cfg : Config) :
  (∀ log r,
     is_Some (determineConsensusValue (initializeRoundTracking r log) r)
     ∧ is_Some (checkFinalDecision cfg (initializeRoundTracking r log) r)
     ∧ ∀ ty v, is_Some (incrementTally (table (initializeRoundTracking r log) ty) r v))
  ∧ (∀ es, ∃ w, exec cfg (initialWorld cfg) es = Some w
                ∧ tasksTracked (messageLog w) (tasks w))
  ∧ (∀ w e, reachable cfg w → is_Some (step cfg w e)).
Proof.
  split; [|split].
  - intros log r. destruct (tracked_initialize log r) as [[p Hp] [v Hv]].
    split; [|split].
    + unfold determineConsensusValue. rewrite Hp. eauto.
    + destruct (checkFinalDecision_total cfg _ _ _ Hv) as [b ->]. eauto.
    + intros ty v0. apply incrementTally_present.
      destruct ty; simpl; apply ensureRound_present.
  - intros es.
    destruct (exec_wellFormed cfg es _ (initialWorld_wellFormed cfg))
      as (w & He & _ & _ & Hts).
    eauto.
  - intros w e Hr.
    destruct (step_wellFormed cfg w e (reachable_wellFormed cfg w Hr)) as (w' & -> & _).
    eauto.
Qed.

Lemma tally_access_after_initialization_witness :
  is_Some (step fourNodes (initialWorld fourNodes) (Message (mkMessage proposal VQ 5 3))).
Proof.
  apply (proj2 (proj2 (tally_access_after_initialization fourNodes))).
  exists []. reflexivity.
Defined.

(** C6: [broadcastMessage] called on a killed or faulty node returns at
    once without a delivery attempt; resumed from its readiness wait on a
    node that has been killed meanwhile, it returns without a delivery
    attempt; no step of a killed node adds a delivery attempt; and a faulty
    node never makes one in any run. *)
Theorem broadcast_silent_when_killed_or_faulty
    (cfg : Config) (w : World) (m : ConsensusMessage) (ready : bool) :
  (killed (nodeState w) || isFaulty cfg = true →
   broadcastMessage cfg w m ready = (w, true))
  ∧ (killed (nodeState w) = true → broadcastResume cfg w m ready = (w, true))
  ∧ (killed (nodeState w) = true →
     ∀ e w', step cfg w e = Some w' → outbox w' = outbox w)
  ∧ (isFaulty cfg = true →
     ∀ es w', exec cfg (initialWorld cfg) es = Some w' → outbox w' = []).
Proof.
  split; [|split; [|split]].
  - apply broadcastMessage_silent.
  - apply broadcastResume_silent.
  - intros Hk e w'. by apply step_killed_outbox.
  - intros Hf es w' He.
    assert (Hw : wellFormed cfg w') by (apply reachable_wellFormed; by exists es).
    destruct Hw as (Hfa & _). by destruct (Hfa Hf).
Qed.

Lemma broadcast_silent_when_killed_or_faulty_witness :
  broadcastMessage fourNodes (getStop (initialWorld fourNodes))
    (mkMessage proposal V0 1 0) true
  = (getStop (initialWorld fourNodes), true)
  ∧ broadcastResume fourNodes (getStop (initialWorld fourNodes))
      (mkMessage proposal V0 1 0) true
    = (getStop (initialWorld fourNodes), true).
Proof.
  destruct (broadcast_silent_when_killed_or_faulty fourNodes
              (getStop (initialWorld fourNodes)) (mkMessage proposal V0 1 0) true)
    as (H1 & H2 & _).
  split; [exact (H1 eq_refl)|exact (H2 eq_refl)].
Defined.

(** A live node whose peers are ready does transmit, once to every peer. *)
Lemma broadcastMessage_live (cfg : Config) (w : World) (m : ConsensusMessage) :
  killed (nodeState w) = false → isFaulty cfg = false →
  broadcastMessage cfg w m true = (deliverToPeers cfg w m, true)
  ∧ broadcastResume cfg w m true = (deliverToPeers cfg w m, true).
Proof.
  intros Hk Hf. unfold broadcastMessage, broadcastResume. by rewrite Hk, Hf.
Qed.

(** ** After the decision *)

(** C8 at the failing input: after [runTwoStarts] the node has decided 0 in
    round 2; when the second run then ends its round, the node is still
    decided and in round 2, but its value has become 1. *)
Theorem decided_value_overwritten :
  ∃ w1 w2,
    exec threeNodes (initialWorld threeNodes) runTwoStarts = Some w1
    ∧ decided (nodeState w1) = Some true
    ∧ x (nodeState w1) = Some V0
    ∧ k (nodeState w1) = Some 2
    ∧ tasks w1 = [VoteSettle 2 V1]
    ∧ step threeNodes w1 (Resume 0 true) = Some w2
    ∧ decided (nodeState w2) = Some true
    ∧ x (nodeState w2) = Some V1
    ∧ k (nodeState w2) = Some 2.
Proof.
  do 2 eexists. split; [vm_compute; reflexivity|].
  split; [reflexivity|]. split; [reflexivity|]. split; [reflexivity|].
  split; [reflexivity|]. split; [vm_compute; reflexivity|].
  vm_compute. tauto.
Qed.

(** What does hold once decided (for [N] other than 1): the flag stays
    true and the round number never moves; the value can only be replaced by
    the end of a round that was already in flight and finds the finalization
    condition met. *)
Lemma step_after_decision (cfg : Config) (w w' : World) (e : Event) :
  N cfg ≠ 1%Z →
  decided (nodeState w) = Some true →
  step cfg w e = Some w' →
  decided (nodeState w') = Some true
  ∧ k (nodeState w') = k (nodeState w)
  ∧ (x (nodeState w') = x (nodeState w)
     ∨ ∃ i ready r v,
         e = Resume i ready
         ∧ tasks w !! i = Some (VoteSettle r v)
         ∧ checkFinalDecision cfg (messageLog w) r = Some true
         ∧ x (nodeState w') = Some v).
Proof.
  intros HN Hd. destruct e as [| |m|i ready]; simpl.
  - intros [= <-]. unfold getStart.
    destruct (isFaulty cfg || killed (nodeState w)); [auto|].
    destruct (negb (isDecided (nodeState w))); auto.
  - intros [= <-]. simpl. auto.
  - destruct (killed (nodeState w) || isFaulty cfg) eqn:Hlive.
    + rewrite (proj1 (postMessage_effect cfg w m) Hlive). intros [= <-]. auto.
    + destruct (proj2 (postMessage_effect cfg w m) Hlive) as (w1 & -> & Hs & _).
      intros [= <-]. rewrite Hs. auto.
  - destruct (tasks w !! i) as [t|] eqn:Ei; [|intros [= <-]; auto].
    destruct (resume cfg (setTasks w (delete i (tasks w))) t ready)
      as [[w1 ts]|] eqn:E; [|discriminate].
    intros [= <-]. simpl.
    destruct t as [|r v|r|r v|r v]; simpl in E.
    + unfold runConsensusProtocol in E.
      destruct (Z.eqb_spec (N cfg) 1) as [|_]; [contradiction|].
      simpl in E. unfold isDecided in E. rewrite Hd in E.
      rewrite !orb_true_r in E. injection E as <- _. simpl. auto.
    + destruct (broadcastResume cfg _ _ ready) as [w2 fin] eqn:Eb in E.
      apply broadcastResume_frame in Eb as (Hs & _).
      injection E as <- _. rewrite Hs. simpl. auto.
    + unfold castVote in E.
      destruct (determineConsensusValue _ r) as [c|]; [|discriminate].
      destruct (broadcastMessage cfg _ _ ready) as [w2 fin] eqn:Eb in E.
      apply broadcastMessage_frame in Eb as (Hs & _).
      injection E as <- _. rewrite Hs. simpl. auto.
    + destruct (broadcastResume cfg _ _ ready) as [w2 fin] eqn:Eb in E.
      apply broadcastResume_frame in Eb as (Hs & _).
      injection E as <- _. rewrite Hs. simpl. auto.
    + unfold decideOrAdvance in E. simpl in E.
      destruct (checkFinalDecision cfg (messageLog w) r) as [[|]|] eqn:Ec;
        [| |discriminate].
      * injection E as <- _. simpl. split; [reflexivity|]. split; [reflexivity|].
        right. exists i, ready, r, v. auto.
      * unfold isDecided in E. rewrite Hd in E. simpl in E.
        injection E as <- _. simpl. auto.
Qed.

(** ** One whole round of a single run *)

Lemma exec_cons (cfg : Config) (w : World) (e : Event) (es : list Event) :
  exec cfg w (e :: es)
  = match step cfg w e with
    | Some w1 => exec cfg w1 es
    | None => None
    end.
Proof. reflexivity. Qed.

Lemma exec_app (cfg : Config) (w : World) (es1 es2 : list Event) :
  exec cfg w (es1 ++ es2)
  = match exec cfg w es1 with
    | Some w1 => exec cfg w1 es2
    | None => None
    end.
Proof.
  revert w. induction es1 as [|e es1 IH]; intros w; simpl; [reflexivity|].
  destruct (step cfg w e); [apply IH|reflexivity].
Qed.

(** Inbound messages touch nothing but the log, and never drop an entry. *)
Lemma exec_messages (cfg : Config) (w : World) (ms : list ConsensusMessage) :
  ∃ w',
    exec cfg w (List.map Message ms) = Some w'
    ∧ nodeState w' = nodeState w ∧ tasks w' = tasks w ∧ outbox w' = outbox w
    ∧ ∀ r, tracked (messageLog w) r → tracked (messageLog w') r.
Proof.
  revert w. induction ms as [|m ms IH]; intros w; simpl.
  - eauto 6.
  - destruct (killed (nodeState w) || isFaulty cfg) eqn:Hlive.
    + rewrite (proj1 (postMessage_effect cfg w m) Hlive). apply IH.
    + destruct (proj2 (postMessage_effect cfg w m) Hlive)
        as (w1 & Hp & Hs & Ht & Ho & _).
      rewrite Hp. destruct (IH w1) as (w' & He & Hs' & Ht' & Ho' & Hm).
      exists w'. split; [exact He|]. rewrite Hs', Ht', Ho'.
      split; [exact Hs|]. split; [exact Ht|]. split; [exact Ho|].
      intros r Hr. apply Hm. exact (postMessage_tracked cfg w w1 m r Hp Hr).
Qed.

(** The first segment of a round on a live, undecided node with ready peers:
    the round is tracked, the proposal goes to every peer, and the run waits
    for the first settling interval. *)
Lemma step_round_begins (cfg : Config) (w : World) (r : nat) :
  isFaulty cfg = false → N cfg ≠ 1%Z →
  killed (nodeState w) = false →
  decided (nodeState w) = Some false →
  k (nodeState w) = Some r →
  tasks w = [RunTimer] →
  step cfg w (Resume 0 true)
  = Some (mkWorld (nodeState w)
            (initializeRoundTracking r (messageLog w))
            [ProposalSettle r]
            (outbox w
             ++ List.map
                  (fun i => mkDelivery i
                     (proposalMessage cfg r (default (roundParity r) (x (nodeState w)))))
                  (peers cfg))).
Proof.
  intros Hf HN Hk Hd Hr Ht. unfold step. rewrite Ht. simpl.
  unfold runConsensusProtocol, broadcastMessage. simpl.
  destruct (Z.eqb_spec (N cfg) 1) as [|_]; [contradiction|].
  unfold isDecided. rewrite Hk, Hf, Hd, Hr. simpl.
  destruct (x (nodeState w)); reflexivity.
Qed.

(** The second segment: the candidate is computed from the proposal tally as
    it stands, and voted. *)
Lemma step_vote_cast (cfg : Config) (w : World) (r : nat) (cv : Value) :
  isFaulty cfg = false →
  killed (nodeState w) = false →
  tasks w = [ProposalSettle r] →
  determineConsensusValue (messageLog w) r = Some cv →
  step cfg w (Resume 0 true)
  = Some (mkWorld (nodeState w) (messageLog w) [VoteSettle r cv]
            (outbox w
             ++ List.map (fun i => mkDelivery i (voteMessage cfg r cv)) (peers cfg))).
Proof.
  intros Hf Hk Ht Hc. unfold step. rewrite Ht. simpl.
  unfold castVote, broadcastMessage. simpl. rewrite Hc, Hk, Hf. reflexivity.
Qed.

(** The third segment is [decideOrAdvance]. *)
Lemma step_round_ends (cfg : Config) (w : World) (r : nat) (cv : Value) (ready : bool) :
  tasks w = [VoteSettle r cv] →
  step cfg w (Resume 0 ready)
  = match decideOrAdvance cfg (setTasks w []) r cv with
    | Some (w1, ts) => Some (setTasks w1 (tasks w1 ++ ts))
    | None => None
    end.
Proof. intros Ht. unfold step. rewrite Ht. reflexivity. Qed.

(** A round run alone on a live, undecided node whose peers are ready, with
    any messages [ms1] arriving during the first settling interval and any
    messages [ms2] during the second: it reaches its last segment with the
    node state untouched, and that segment decides the candidate, keeping
    the round number, exactly when the round is at least 2 and the vote tally
    of 0 or of 1 has reached [floor(N/2)]; otherwise it moves to the next
    round with the parity of [r] as the working value. *)
Lemma round_outcome (cfg : Config) (w : World) (r : nat)
    (ms1 ms2 : list ConsensusMessage) :
  isFaulty cfg = false → N cfg ≠ 1%Z →
  killed (nodeState w) = false →
  decided (nodeState w) = Some false →
  k (nodeState w) = Some r →
  tasks w = [RunTimer] →
  ∃ w2 cv w3,
    exec cfg w (Resume 0 true :: List.map Message ms1
                ++ Resume 0 true :: List.map Message ms2) = Some w2
    ∧ nodeState w2 = nodeState w
    ∧ tasks w2 = [VoteSettle r cv]
    ∧ step cfg w2 (Resume 0 true) = Some w3
    ∧ (decided (nodeState w3) = Some true
       ↔ 2 ≤ r ∧ ((N cfg / 2 ≤ Z.of_nat (countOf (messageLog w2) vote r V0))%Z
                  ∨ (N cfg / 2 ≤ Z.of_nat (countOf (messageLog w2) vote r V1))%Z))
    ∧ (decided (nodeState w3) = Some true →
       x (nodeState w3) = Some cv ∧ k (nodeState w3) = Some r ∧ tasks w3 = [])
    ∧ (decided (nodeState w3) ≠ Some true →
       x (nodeState w3) = Some (roundParity r) ∧ k (nodeState w3) = Some (r + 1)
       ∧ tasks w3 = [RunTimer]).
Proof.
  intros Hf HN Hk Hd Hr Ht.
  pose proof (step_round_begins cfg w r Hf HN Hk Hd Hr Ht) as H1.
  set (w1 := mkWorld (nodeState w) (initializeRoundTracking r (messageLog w))
               [ProposalSettle r]
               (outbox w
                ++ List.map
                     (fun i => mkDelivery i
                        (proposalMessage cfg r
                           (default (roundParity r) (x (nodeState w)))))
                     (peers cfg))) in H1.
  destruct (exec_messages cfg w1 ms1) as (wa & Ha & Has & Hat & _ & Ham).
  assert (Htr : tracked (messageLog wa) r) by (apply Ham, tracked_initialize).
  destruct Htr as [[p Hp] _].
  assert (Hcv : ∃ cv, determineConsensusValue (messageLog wa) r = Some cv).
  { unfold determineConsensusValue. rewrite Hp. eauto. }
  destruct Hcv as [cv Hcv].
  assert (H2 := step_vote_cast cfg wa r cv Hf).
  rewrite Has, Hat in H2. specialize (H2 Hk eq_refl Hcv).
  set (wb := mkWorld (nodeState w) (messageLog wa) [VoteSettle r cv]
               (outbox wa
                ++ List.map (fun i => mkDelivery i (voteMessage cfg r cv)) (peers cfg)))
    in H2.
  destruct (exec_messages cfg wb ms2) as (w2 & Hb & Hbs & Hbt & _ & Hbm).
  assert (Htr : tracked (messageLog w2) r).
  { apply Hbm. apply Ham, tracked_initialize. }
  destruct Htr as [_ [v Hv]].
  assert (Hd2 : decided (nodeState w2) = Some false) by (rewrite Hbs; exact Hd).
  destruct (decideOrAdvance_outcome cfg (setTasks w2 []) r cv v Hd2 Hv)
    as (w3 & ts & He & Hiff & Hyes & Hno).
  exists w2, cv, (setTasks w3 (tasks w3 ++ ts)).
  split.
  { rewrite exec_cons, H1, exec_app, Ha, exec_cons, H2. exact Hb. }
  split; [rewrite Hbs; reflexivity|]. split; [exact Hbt|].
  split.
  { rewrite (step_round_ends cfg w2 r cv true Hbt), He. reflexivity. }
  assert (Hc0 : countOf (messageLog w2) vote r V0 = count0 v)
    by (unfold countOf; simpl; rewrite Hv; reflexivity).
  assert (Hc1 : countOf (messageLog w2) vote r V1 = count1 v)
    by (unfold countOf; simpl; rewrite Hv; reflexivity).
  rewrite Hc0, Hc1. simpl nodeState. simpl tasks.
  split; [exact Hiff|]. split.
  - intros Hy. destruct (Hyes Hy) as (Hx & Hk3 & Hts & Ht3).
    rewrite Hx, Hk3, Hts, Ht3. simpl.
    rewrite Hbs. unfold wb. simpl. rewrite Hr. auto.
  - intros Hn. destruct (Hno Hn) as (Hx & Hk3 & Hts & Ht3).
    rewrite Hx, Hk3, Hts, Ht3. simpl. auto.
Qed.

(** * Further properties of the node *)

(** ** The peers a broadcast goes to (lines 61-64) *)

Lemma length_filter_seq_ne (a s n : nat) :
  length (List.filter (fun i => negb (Nat.eqb i a)) (seq s n))
  = n - (if bool_decide (s ≤ a ∧ a < s + n) then 1 else 0).
Proof.
  revert s. induction n as [|n IH]; intros s; simpl.
  - reflexivity.
  - rewrite (bool_decide_ext (s ≤ a ∧ a < s + S n) (s = a ∨ (S s ≤ a ∧ a < S s + n)))
      by lia.
    destruct (Nat.eqb_spec s a) as [->|Hne]; simpl.
    + rewrite IH. rewrite bool_decide_false by lia.
      rewrite bool_decide_true by auto. lia.
    + rewrite IH.
      rewrite (bool_decide_ext (s = a ∨ (S s ≤ a ∧ a < S s + n)) (S s ≤ a ∧ a < S s + n))
        by tauto.
      case_bool_decide; lia.
Qed.

Lemma In_peers (cfg : Config) (i : nat) :
  In i (peers cfg) ↔ (Z.of_nat i < N cfg)%Z ∧ i ≠ nodeId cfg.
Proof.
  unfold peers. rewrite filter_In, in_seq.
  destruct (Nat.eqb_spec i (nodeId cfg)); simpl; split; intros [H1 H2];
    try discriminate; try contradiction; (split; [lia|done]).
Qed.

(** X1: a broadcast addresses exactly the indices below [N] other than the
    node's own, each once; that is [N - 1] peers when the node's id is below
    [N], and all [N] indices otherwise. *)
Theorem peers_spec (cfg : Config) :
  (∀ i, In i (peers cfg) ↔ (Z.of_nat i < N cfg)%Z ∧ i ≠ nodeId cfg)
  ∧ List.NoDup (peers cfg)
  ∧ ((Z.of_nat (nodeId cfg) < N cfg)%Z →
     Z.of_nat (length (peers cfg)) = (N cfg - 1)%Z)
  ∧ ((N cfg ≤ Z.of_nat (nodeId cfg))%Z →
     length (peers cfg) = Z.to_nat (N cfg)).
Proof.
  split; [exact (In_peers cfg)|]. unfold peers. split; [|split].
  - apply List.NoDup_filter, List.seq_NoDup.
  - intros H. rewrite length_filter_seq_ne. rewrite bool_decide_true by lia. lia.
  - intros H. rewrite length_filter_seq_ne. rewrite bool_decide_false by lia. lia.
Qed.

Lemma peers_spec_witness :
  Z.of_nat (length (peers fourNodes)) = 3%Z.
Proof.
  apply (proj1 (proj2 (proj2 (peers_spec fourNodes)))). reflexivity.
Defined.

(** ** Resumptions, case by case *)

Lemma step_resume_inv (cfg : Config) (w w' : World) (i : nat) (ready : bool) :
  step cfg w (Resume i ready) = Some w' →
  (tasks w !! i = None ∧ w' = w)
  ∨ ∃ t w1 ts,
      tasks w !! i = Some t
      ∧ resume cfg (setTasks w (delete i (tasks w))) t ready = Some (w1, ts)
      ∧ w' = setTasks w1 (tasks w1 ++ ts).
Proof.
  simpl. destruct (tasks w !! i) as [t|]; [|intros [= <-]; auto].
  destruct (resume cfg (setTasks w (delete i (tasks w))) t ready)
    as [[w1 ts]|] eqn:E; [|discriminate].
  intros [= <-]. right. eauto 6.
Qed.

(** Case analysis of a successful resumption: every test the resumed segment
    makes is decided and recorded as an equation. *)
Ltac resume_cases E w ready :=
  unfold resume, runConsensusProtocol, castVote, decideOrAdvance,
    broadcastMessage, broadcastResume, deliverToPeers in E;
  simpl in E;
  repeat match type of E with
    | context [killed (nodeState w)] => destruct (killed (nodeState w)) eqn:?
    | context [isFaulty ?c] => destruct (isFaulty c) eqn:?
    | context [(N ?c =? 1)%Z] => destruct (Z.eqb_spec (N c) 1)
    | context [isDecided (nodeState w)] => destruct (isDecided (nodeState w)) eqn:?
    | context [k (nodeState w)] => destruct (k (nodeState w)) eqn:?
    | context [determineConsensusValue ?l ?r] =>
        destruct (determineConsensusValue l r) eqn:?
    | context [checkFinalDecision ?c ?l ?r] =>
        destruct (checkFinalDecision c l r) as [[|]|] eqn:?
    | context [if ready then _ else _] => destruct ready
    end; simpl in E; try discriminate E;
  injection E as <- <-.

Lemma resume_tasks (cfg : Config) (w w' : World) (t : Task) (ready : bool)
    (ts : list Task) :
  resume cfg w t ready = Some (w', ts) →
  tasks w' = tasks w ∧ length ts ≤ 1.
Proof.
  intros E. destruct t; resume_cases E w ready; simpl; auto.
Qed.

Lemma determineConsensusValue_binary (log : MessageLog) (r : nat) (v : Value) :
  determineConsensusValue log r = Some v → binary v.
Proof.
  unfold determineConsensusValue. destruct (proposals log !! r) as [p|]; [|discriminate].
  intros [= <-]. unfold binary.
  destruct (Nat.ltb (count1 p) (count0 p)); [auto|].
  destruct (Nat.ltb (count0 p) (count1 p)); [auto|].
  apply roundParity_binary.
Qed.

(** ** What every world of a run satisfies *)

Lemma deliveries_wellAddressed (cfg : Config) (m : ConsensusMessage) :
  sender m = nodeId cfg → 1 ≤ round m →
  (type m = vote → binary (value m)) →
  Forall (wellAddressed cfg) (List.map (fun i => mkDelivery i m) (peers cfg)).
Proof.
  intros Hs Hr Hv. apply List.Forall_forall. intros d Hd.
  apply in_map_iff in Hd as (i & <- & Hi). apply In_peers in Hi as [Hlt Hne].
  repeat split; simpl; auto.
Qed.

Lemma initialWorld_sound (cfg : Config) : sound cfg (initialWorld cfg).
Proof.
  split; [|split; [|split]]; simpl.
  - intros ->. eauto 6.
  - constructor.
  - constructor.
  - destruct (isFaulty cfg); discriminate.
Qed.

Lemma resume_sound (cfg : Config) (w w' : World) (t : Task) (ready : bool)
    (ts : list Task) :
  sound cfg w → taskSound t →
  resume cfg w t ready = Some (w', ts) →
  sound cfg w' ∧ Forall taskSound ts.
Proof.
  intros (Hnn & Hts & Hout & Hbin) Ht E. unfold sound.
  destruct (isFaulty cfg) eqn:Hfa.
  all: destruct t; resume_cases E w ready; simpl in *.
  all: repeat match goal with
         | H : false = false → _ |- _ => specialize (H eq_refl)
         | H : true = false → _ |- _ => clear H
         | H : _ ∧ _ |- _ => destruct H
         | H : ∃ _, _ |- _ => destruct H
         | H : determineConsensusValue _ _ = Some _ |- _ =>
             apply determineConsensusValue_binary in H
         end.
  all: simplify_eq.
  all: split;
    [|first [ apply List.Forall_nil
            | apply List.Forall_cons;
              [simpl; first [exact I | lia | split; [lia|assumption]]
              |apply List.Forall_nil] ]].
  all: split;
    [first [ discriminate
           | intros _; split; [eauto 2|]; split; [eauto 2|];
             eexists; split; [first [reflexivity|eassumption]|lia] ]|].
  all: split; [assumption|].
  all: split;
    [first [ assumption
           | apply Forall_app; split; [assumption|];
             apply deliveries_wellAddressed; simpl;
             first [reflexivity | lia | discriminate | intros _; assumption] ]|].
  all: try (intros; exfalso; congruence).
  all: try assumption.
  all: intros _ _; eexists; split;
    [reflexivity|first [assumption|apply roundParity_binary]].
Qed.

Lemma step_sound (cfg : Config) (w w' : World) (e : Event) :
  sound cfg w → step cfg w e = Some w' → sound cfg w'.
Proof.
  intros Hs. pose proof Hs as (Hnn & Hts & Hout & Hbin).
  destruct e as [| |m|i ready].
  - intros [= <-]. unfold getStart.
    destruct (isFaulty cfg || killed (nodeState w)); [exact Hs|].
    destruct (negb (isDecided (nodeState w))); [|exact Hs].
    split; [exact Hnn|]. split; [|split; [exact Hout|exact Hbin]].
    simpl. apply Forall_app. split; [exact Hts|].
    apply List.Forall_cons; [exact I|apply List.Forall_nil].
  - intros [= <-]. exact Hs.
  - simpl. destruct (killed (nodeState w) || isFaulty cfg) eqn:Hlive.
    + rewrite (proj1 (postMessage_effect cfg w m) Hlive). by intros [= <-].
    + destruct (proj2 (postMessage_effect cfg w m) Hlive)
        as (w1 & -> & Hst & Hta & Ho & _).
      intros [= <-]. unfold sound. rewrite Hst, Hta, Ho. exact Hs.
  - intros H. apply step_resume_inv in H as [[_ ->]|(t & w1 & ts & Hi & Hr & ->)];
      [exact Hs|].
    assert (Ht : taskSound t).
    { rewrite Forall_lookup in Hts. exact (Hts i t Hi). }
    assert (Hs0 : sound cfg (setTasks w (delete i (tasks w)))).
    { split; [exact Hnn|]. split; [|split; [exact Hout|exact Hbin]].
      simpl. by apply Forall_delete. }
    destruct (resume_sound cfg _ _ _ _ _ Hs0 Ht Hr)
      as ((Hnn1 & Hts1 & Hout1 & Hbin1) & Hnew).
    split; [exact Hnn1|]. split; [|split; [exact Hout1|exact Hbin1]].
    simpl. apply Forall_app. auto.
Qed.

Lemma exec_sound (cfg : Config) (es : list Event) (w w' : World) :
  sound cfg w → exec cfg w es = Some w' → sound cfg w'.
Proof.
  revert w. induction es as [|e es IH]; intros w Hs; simpl.
  - by intros [= <-].
  - destruct (step cfg w e) as [w1|] eqn:E; [|discriminate].
    apply IH. exact (step_sound cfg w w1 e Hs E).
Qed.

Lemma reachable_sound (cfg : Config) (w : World) :
  reachable cfg w → sound cfg w.
Proof. intros [es He]. exact (exec_sound cfg es _ _ (initialWorld_sound cfg) He). Qed.

(** Every run from the initial world succeeds, and ends in a world that is
    well-formed and sound. *)
Lemma run_total (cfg : Config) (es : list Event) :
  ∃ w, exec cfg (initialWorld cfg) es = Some w ∧ wellFormed cfg w ∧ sound cfg w.
Proof.
  destruct (exec_wellFormed cfg es _ (initialWorld_wellFormed cfg)) as (w & He & Hw).
  exists w. split; [exact He|]. split; [exact Hw|].
  exact (exec_sound cfg es _ _ (initialWorld_sound cfg) He).
Qed.

(** X2: in every run, each delivery attempt the node has made goes to an
    index below [N] other than its own, names the node as sender, carries a
    round number of at least 1, and, if it is a vote, carries 0 or 1. *)
Theorem outbox_well_addressed (cfg : Config) (es : list Event) :
  ∃ w, exec cfg (initialWorld cfg) es = Some w
       ∧ ∀ d, In d (outbox w) →
           target d ≠ nodeId cfg
           ∧ (Z.of_nat (target d) < N cfg)%Z
           ∧ sender (payload d) = nodeId cfg
           ∧ 1 ≤ round (payload d)
           ∧ (type (payload d) = vote →
              value (payload d) = V0 ∨ value (payload d) = V1).
Proof.
  destruct (run_total cfg es) as (w & He & _ & _ & _ & Hout & _).
  exists w. split; [exact He|]. intros d Hd.
  rewrite List.Forall_forall in Hout. exact (Hout d Hd).
Qed.

Lemma outbox_well_addressed_witness :
  ∃ w, exec fourNodes (initialWorld fourNodes) runVotesForZero = Some w
       ∧ (In (mkDelivery 3 (mkMessage vote V1 2 0)) (outbox w) → 3 ≠ 0).
Proof.
  destruct (outbox_well_addressed fourNodes runVotesForZero) as (w & He & H).
  exists w. split; [exact He|]. intros Hd. exact (proj1 (H _ Hd)).
Defined.

(** X3: in every run the reported fields [x], [decided] and [k] are null
    exactly for a faulty node: a faulty node reports null for all three, and
    a non-faulty node reports a value, a flag and a round number of at least
    1. *)
Theorem getState_null_iff_faulty (cfg : Config) (es : list Event) :
  ∃ w, exec cfg (initialWorld cfg) es = Some w
       ∧ (isFaulty cfg = true →
          x (getState cfg w) = None ∧ decided (getState cfg w) = None
          ∧ k (getState cfg w) = None)
       ∧ (isFaulty cfg = false →
          is_Some (x (getState cfg w)) ∧ is_Some (decided (getState cfg w))
          ∧ ∃ r, k (getState cfg w) = Some r ∧ 1 ≤ r
          ∧ is_Some (x (nodeState w)) ∧ is_Some (decided (nodeState w))
          ∧ ∃ r0, k (nodeState w) = Some r0 ∧ 1 ≤ r0).
Proof.
  destruct (run_total cfg es) as (w & He & _ & Hnn & _).
  exists w. split; [exact He|]. unfold getState. split.
  - intros ->. auto.
  - intros Hf. rewrite Hf. destruct (Hnn Hf) as (Hx & Hd & r0 & Hk & Hr).
    destruct (N cfg =? 1)%Z; [simpl; eauto 12|].
    destruct (isExceedingFaultLimit cfg); simpl.
    + split; [exact Hx|]. split; [eauto|]. eexists. split; [reflexivity|].
      split; [lia|]. eauto 6.
    + split; [exact Hx|]. split; [exact Hd|]. exists r0. eauto 8.
Qed.

Lemma getState_null_iff_faulty_witness :
  ∃ w, exec faultyOfThree (initialWorld faultyOfThree) [Start; Stop] = Some w
       ∧ x (getState faultyOfThree w) = None.
Proof.
  destruct (getState_null_iff_faulty faultyOfThree [Start; Stop]) as (w & He & H & _).
  exists w. split; [exact He|]. exact (proj1 (H eq_refl)).
Defined.

(** X4: unless [N] is 1, a node that has decided holds 0 or 1 in every run:
    the sentinel "?" is never a decided value. *)
Theorem decided_value_binary (cfg : Config) (es : list Event) :
  N cfg ≠ 1%Z →
  ∃ w, exec cfg (initialWorld cfg) es = Some w
       ∧ (decided (nodeState w) = Some true →
          x (nodeState w) = Some V0 ∨ x (nodeState w) = Some V1).
Proof.
  intros HN. destruct (run_total cfg es) as (w & He & _ & _ & _ & _ & Hbin).
  exists w. split; [exact He|]. intros Hd.
  destruct (Hbin HN Hd) as (v & -> & [->| ->]); auto.
Qed.

Lemma decided_value_binary_witness :
  ∃ w, exec fourNodes (initialWorld fourNodes) runVotesForZero = Some w
       ∧ (decided (nodeState w) = Some true →
          x (nodeState w) = Some V0 ∨ x (nodeState w) = Some V1).
Proof.
  apply (decided_value_binary fourNodes runVotesForZero). discriminate.
Defined.
(** ** A faulty node *)

Lemma step_faulty (cfg : Config) (b : bool) (e : Event) :
  isFaulty cfg = true →
  step cfg (mkWorld (mkNodeState b None None None) (mkLog ∅ ∅) [] []) e
  = Some (mkWorld (mkNodeState (b || isStop e) None None None) (mkLog ∅ ∅) [] []).
Proof.
  intros Hf. destruct e as [| |m|i ready]; simpl.
  - unfold getStart. rewrite Hf. simpl. by rewrite orb_false_r.
  - unfold getStop. simpl. by rewrite orb_true_r.
  - unfold postMessage. simpl. rewrite Hf, orb_true_r, orb_false_r. reflexivity.
  - by rewrite orb_false_r.
Qed.

Lemma exec_faulty (cfg : Config) (b : bool) (es : list Event) :
  isFaulty cfg = true →
  exec cfg (mkWorld (mkNodeState b None None None) (mkLog ∅ ∅) [] []) es
  = Some (mkWorld (mkNodeState (b || existsb isStop es) None None None)
            (mkLog ∅ ∅) [] []).
Proof.
  intros Hf. revert b. induction es as [|e es IH]; intros b; simpl exec.
  - simpl. by rewrite orb_false_r.
  - rewrite (step_faulty cfg b e Hf), IH. simpl existsb. by rewrite orb_assoc.
Qed.

(** X5: a faulty node is inert.  After any run its world is the initial
    one, except that the killed flag tells whether a stop request has
    occurred: it has tallied no message, started no round, sent nothing, and
    its fields are still null. *)
Theorem faulty_node_inert (cfg : Config) (es : list Event) :
  isFaulty cfg = true →
  exec cfg (initialWorld cfg) es
  = Some (mkWorld (mkNodeState (existsb isStop es) None None None)
            (mkLog ∅ ∅) [] []).
Proof.
  intros Hf. unfold initialWorld, initialState. rewrite Hf.
  exact (exec_faulty cfg false es Hf).
Qed.

Lemma faulty_node_inert_witness :
  exec faultyOfThree (initialWorld faultyOfThree)
    [Start; Message (mkMessage vote V0 1 1); Resume 0 true; Stop; Start]
  = Some (mkWorld (mkNodeState true None None None) (mkLog ∅ ∅) [] []).
Proof.
  exact (faulty_node_inert faultyOfThree
           [Start; Message (mkMessage vote V0 1 1); Resume 0 true; Stop; Start]
           eq_refl).
Defined.

(** ** A killed node *)

Lemma pendingWork_app (ts1 ts2 : list Task) :
  pendingWork (ts1 ++ ts2) = pendingWork ts1 + pendingWork ts2.
Proof. unfold pendingWork. apply sum_list_with_app. Qed.

Lemma pendingWork_delete (ts : list Task) (i : nat) (t : Task) :
  ts !! i = Some t →
  pendingWork (delete i ts) + taskWeight t = pendingWork ts.
Proof.
  revert i. induction ts as [|t0 ts IH]; intros i; [discriminate|].
  destruct i as [|i]; simpl.
  - intros [= ->]. unfold pendingWork. simpl. lia.
  - intros H. specialize (IH i H). unfold pendingWork in *. simpl. lia.
Qed.

(** What one resumption does on a killed node: it leaves the flag, the log
    and the outbox alone and replaces the activity by a lighter one. *)
Lemma resume_killed (cfg : Config) (w w' : World) (t : Task) (ready : bool)
    (ts : list Task) :
  killed (nodeState w) = true →
  resume cfg w t ready = Some (w', ts) →
  killed (nodeState w') = true
  ∧ messageLog w' = messageLog w
  ∧ outbox w' = outbox w
  ∧ tasks w' = tasks w
  ∧ pendingWork ts < taskWeight t.
Proof.
  intros Hk E. destruct t; resume_cases E w ready; simpl;
    try discriminate; repeat split; auto; unfold pendingWork; simpl; lia.
Qed.

Lemma step_killed (cfg : Config) (w w' : World) (e : Event) :
  killed (nodeState w) = true →
  step cfg w e = Some w' →
  killed (nodeState w') = true
  ∧ messageLog w' = messageLog w
  ∧ outbox w' = outbox w
  ∧ pendingWork (tasks w') ≤ pendingWork (tasks w)
  ∧ (∀ i ready, e = Resume i ready → is_Some (tasks w !! i) →
       pendingWork (tasks w') < pendingWork (tasks w)).
Proof.
  intros Hk. destruct e as [| |m|i ready].
  - intros [= <-]. unfold getStart. rewrite Hk, orb_true_r.
    repeat split; auto. intros ? ? [=].
  - intros [= <-]. simpl. repeat split; auto. intros ? ? [=].
  - simpl. unfold postMessage. rewrite Hk. simpl. intros [= <-].
    repeat split; auto. intros ? ? [=].
  - intros H. apply step_resume_inv in H as [[Hn ->]|(t & w1 & ts & Hi & Hr & ->)].
    { repeat split; auto. intros ? ? [= <- <-] [? ?]. congruence. }
    destruct (resume_killed cfg (setTasks w (delete i (tasks w))) _ _ _ _ Hk Hr) as (Hk1 & Hl & Ho & Ht & Hlt).
    pose proof (pendingWork_delete _ _ _ Hi) as Hd.
    simpl. rewrite Ht. simpl. rewrite pendingWork_app.
    repeat split; auto; lia.
Qed.

Lemma exec_killed (cfg : Config) (w w' : World) (es : list Event) :
  killed (nodeState w) = true →
  exec cfg w es = Some w' →
  killed (nodeState w') = true
  ∧ messageLog w' = messageLog w
  ∧ outbox w' = outbox w
  ∧ pendingWork (tasks w') ≤ pendingWork (tasks w).
Proof.
  revert w. induction es as [|e es IH]; intros w Hk; simpl.
  - intros [= <-]. auto.
  - destruct (step cfg w e) as [w1|] eqn:E; [|discriminate]. intros He.
    destruct (step_killed cfg w w1 e Hk E) as (Hk1 & Hl & Ho & Hp & _).
    destruct (IH w1 Hk1 He) as (Hk2 & Hl2 & Ho2 & Hp2).
    rewrite Hl2, Ho2. repeat split; auto. lia.
Qed.

(** X6: a killed node stays killed, and from the moment it is killed its
    message log and the record of its delivery attempts never change again,
    whatever requests, messages and resumptions follow; the work it still
    has in flight never grows. *)
Theorem killed_node_frozen (cfg : Config) (w w' : World) (es : list Event) :
  killed (nodeState w) = true →
  exec cfg w es = Some w' →
  killed (nodeState w') = true
  ∧ messageLog w' = messageLog w
  ∧ outbox w' = outbox w
  ∧ pendingWork (tasks w') ≤ pendingWork (tasks w).
Proof. exact (exec_killed cfg w w' es). Qed.

Lemma killed_node_frozen_witness :
  ∃ w', exec fourNodes (getStop (initialWorld fourNodes))
          [Message (mkMessage vote V0 1 1); Start; Resume 0 true] = Some w'
        ∧ messageLog w' = mkLog ∅ ∅ ∧ outbox w' = [].
Proof.
  eexists. split; [reflexivity|].
  destruct (killed_node_frozen fourNodes (getStop (initialWorld fourNodes)) _
              [Message (mkMessage vote V0 1 1); Start; Resume 0 true]
              eq_refl eq_refl) as (_ & Hl & Ho & _).
  split; [exact Hl|exact Ho].
Defined.

Lemma pendingWork_zero (ts : list Task) : pendingWork ts = 0 → ts = [].
Proof.
  destruct ts as [|t ts]; [reflexivity|].
  unfold pendingWork. simpl. destruct t; simpl; lia.
Qed.

(** X7: the activity of a killed node dies out.  In a well-formed world of a
    killed node, resuming the oldest suspended activity as many times as
    there is pending work (at most four times per activity), with any
    answers of the readiness gate, leaves no activity suspended; the log and
    the outbox are as they were. *)
Theorem killed_node_halts (cfg : Config) (w : World) (bs : list bool) :
  wellFormed cfg w →
  killed (nodeState w) = true →
  pendingWork (tasks w) ≤ length bs →
  ∃ w', exec cfg w (List.map (Resume 0) bs) = Some w'
        ∧ tasks w' = []
        ∧ killed (nodeState w') = true
        ∧ messageLog w' = messageLog w
        ∧ outbox w' = outbox w.
Proof.
  revert w. induction bs as [|b bs IH]; intros w Hw Hk Hp; simpl.
  - exists w. split; [reflexivity|]. split; [|auto].
    apply pendingWork_zero. simpl in Hp. lia.
  - destruct (step_wellFormed cfg w (Resume 0 b) Hw) as (w1 & Hs & Hw1).
    simpl in Hs. rewrite Hs.
    destruct (step_killed cfg w w1 (Resume 0 b) Hk Hs) as (Hk1 & Hl & Ho & Hle & Hlt).
    assert (Hp1 : pendingWork (tasks w1) ≤ length bs).
    { destruct (tasks w !! 0) as [t|] eqn:E.
      - specialize (Hlt 0 b eq_refl (ltac:(eauto))). simpl in Hp. lia.
      - destruct (tasks w); [|discriminate]. unfold pendingWork in *. simpl in *. lia. }
    destruct (IH w1 Hw1 Hk1 Hp1) as (w' & He & Ht & Hk' & Hl' & Ho').
    exists w'. rewrite Hl', Ho'. auto.
Qed.

Lemma killed_node_halts_witness :
  ∃ w', exec fourNodes
          (mkWorld (mkNodeState true (Some V0) (Some false) (Some 1))
             (initializeRoundTracking 1 (mkLog ∅ ∅)) [ProposalGate 1 V0] [])
          (List.map (Resume 0) [false; false; true; true]) = Some w'
        ∧ tasks w' = [].
Proof.
  destruct (killed_node_halts fourNodes
              (mkWorld (mkNodeState true (Some V0) (Some false) (Some 1))
                 (initializeRoundTracking 1 (mkLog ∅ ∅)) [ProposalGate 1 V0] [])
              [false; false; true; true])
    as (w' & He & Ht & _).
  - split; [discriminate|]. split; [simpl; eauto|].
    apply List.Forall_cons; [|apply List.Forall_nil].
    intros r [= <-]. apply tracked_initialize.
  - reflexivity.
  - unfold pendingWork. simpl. lia.
  - exists w'. auto.
Defined.

(** ** Runs in flight and the finality of a decision *)

Lemma step_tasks_length (cfg : Config) (w w' : World) (e : Event) :
  step cfg w e = Some w' →
  length (tasks w') ≤ length (tasks w) + (if isStart e then 1 else 0).
Proof.
  destruct e as [| |m|i ready].
  - intros [= <-]. unfold getStart.
    destruct (isFaulty cfg || killed (nodeState w)); [simpl; lia|].
    destruct (negb (isDecided (nodeState w))); simpl; [|lia].
    rewrite length_app. simpl. lia.
  - intros [= <-]. simpl. lia.
  - simpl. destruct (killed (nodeState w) || isFaulty cfg) eqn:Hlive.
    + rewrite (proj1 (postMessage_effect cfg w m) Hlive). intros [= <-]. lia.
    + destruct (proj2 (postMessage_effect cfg w m) Hlive) as (w1 & -> & _ & Ht & _).
      intros [= <-]. rewrite Ht. lia.
  - intros H. apply step_resume_inv in H as [[_ ->]|(t & w1 & ts & Hi & Hr & ->)];
      [simpl; lia|].
    destruct (resume_tasks cfg _ _ _ _ _ Hr) as [Ht Hlen].
    simpl. rewrite Ht. simpl. rewrite length_app, length_delete by eauto.
    apply lookup_lt_Some in Hi. lia.
Qed.

Lemma exec_tasks_length (cfg : Config) (es : list Event) (w w' : World) :
  exec cfg w es = Some w' →
  length (tasks w') ≤ length (tasks w) + countStarts es.
Proof.
  revert w. induction es as [|e es IH]; intros w; simpl.
  - intros [= <-]. unfold countStarts. simpl. lia.
  - destruct (step cfg w e) as [w1|] eqn:E; [|discriminate]. intros He.
    pose proof (step_tasks_length cfg w w1 e E) as H1.
    pose proof (IH w1 He) as H2. unfold countStarts in *. simpl.
    destruct (isStart e); simpl; lia.
Qed.

(** X8: in every run the number of round functions in flight (pending or
    suspended) is at most the number of start requests received so far:
    only a start request begins a new one, and each one continues as at most
    one. *)
Theorem runs_in_flight_bounded (cfg : Config) (es : list Event) :
  ∃ w, exec cfg (initialWorld cfg) es = Some w
       ∧ length (tasks w) ≤ countStarts es.
Proof.
  destruct (run_total cfg es) as (w & He & _). exists w. split; [exact He|].
  exact (exec_tasks_length cfg es _ _ He).
Qed.

Lemma step_quiescent (cfg : Config) (w w' : World) (e : Event) :
  decided (nodeState w) = Some true →
  tasks w = [] →
  step cfg w e = Some w' →
  decided (nodeState w') = Some true ∧ tasks w' = []
  ∧ x (nodeState w') = x (nodeState w) ∧ k (nodeState w') = k (nodeState w).
Proof.
  intros Hd Ht. destruct e as [| |m|i ready].
  - intros [= <-]. unfold getStart.
    destruct (isFaulty cfg || killed (nodeState w)); [auto|].
    unfold isDecided. rewrite Hd. simpl. auto.
  - intros [= <-]. simpl. auto.
  - simpl. destruct (killed (nodeState w) || isFaulty cfg) eqn:Hlive.
    + rewrite (proj1 (postMessage_effect cfg w m) Hlive). intros [= <-]. auto.
    + destruct (proj2 (postMessage_effect cfg w m) Hlive)
        as (w1 & -> & Hs & Hta & _).
      intros [= <-]. rewrite Hs, Hta. auto.
  - simpl. rewrite Ht. simpl. intros [= <-]. auto.
Qed.

Lemma exec_quiescent (cfg : Config) (es : list Event) (w w' : World) :
  decided (nodeState w) = Some true →
  tasks w = [] →
  exec cfg w es = Some w' →
  x (nodeState w') = x (nodeState w) ∧ k (nodeState w') = k (nodeState w)
  ∧ decided (nodeState w') = Some true ∧ tasks w' = [].
Proof.
  revert w. induction es as [|e es IH]; intros w Hd Ht; simpl.
  - intros [= <-]. auto.
  - destruct (step cfg w e) as [w1|] eqn:E; [|discriminate]. intros He.
    destruct (step_quiescent cfg w w1 e Hd Ht E) as (Hd1 & Ht1 & Hx & Hk).
    destruct (IH w1 Hd1 Ht1 He) as (Hx' & Hk' & Hd' & Ht').
    rewrite Hx', Hk'. auto.
Qed.

(** X9: once the node has decided and no round function is in flight, the
    decision is final: whatever requests, messages and resumptions follow,
    [x] and [k] keep their values, [decided] stays true, and no round
    function is ever started again. *)
Theorem decision_final_when_quiescent (cfg : Config) (w w' : World) (es : list Event) :
  decided (nodeState w) = Some true →
  tasks w = [] →
  exec cfg w es = Some w' →
  x (nodeState w') = x (nodeState w) ∧ k (nodeState w') = k (nodeState w)
  ∧ decided (nodeState w') = Some true ∧ tasks w' = [].
Proof. exact (exec_quiescent cfg es w w'). Qed.

Lemma decision_final_when_quiescent_witness :
  ∃ w', exec fourNodes
          (mkWorld (mkNodeState false (Some V1) (Some true) (Some 2)) (mkLog ∅ ∅) [] [])
          [Start; Message (mkMessage vote V0 2 1); Resume 0 true; Stop] = Some w'
        ∧ x (nodeState w') = Some V1 ∧ k (nodeState w') = Some 2.
Proof.
  destruct (exec fourNodes
              (mkWorld (mkNodeState false (Some V1) (Some true) (Some 2))
                 (mkLog ∅ ∅) [] [])
              [Start; Message (mkMessage vote V0 2 1); Resume 0 true; Stop])
    as [w'|] eqn:E; [|vm_compute in E; discriminate E].
  exists w'. split; [reflexivity|].
  destruct (decision_final_when_quiescent fourNodes
              (mkWorld (mkNodeState false (Some V1) (Some true) (Some 2))
                 (mkLog ∅ ∅) [] [])
              w' _ eq_refl eq_refl E)
    as (Hx & Hk & _).
  split; [exact Hx|exact Hk].
Defined.

(** A resumption that leaves an undecided node decided continues as
    nothing. *)
Lemma resume_decides_ends (cfg : Config) (w w' : World) (t : Task) (ready : bool)
    (ts : list Task) :
  decided (nodeState w) ≠ Some true →
  resume cfg w t ready = Some (w', ts) →
  decided (nodeState w') = Some true → ts = [].
Proof.
  intros Hd E. destruct t; resume_cases E w ready; simpl; auto; congruence.
Qed.

(** With at most one round function in flight, a decided node has none. *)
Lemma step_single_run (cfg : Config) (w w' : World) (e : Event) :
  length (tasks w) + (if isStart e then 1 else 0) ≤ 1 →
  (decided (nodeState w) = Some true → tasks w = []) →
  step cfg w e = Some w' →
  decided (nodeState w') = Some true → tasks w' = [].
Proof.
  intros Hlen Hq. destruct e as [| |m|i ready].
  - intros [= <-]. unfold getStart.
    destruct (isFaulty cfg || killed (nodeState w)); [exact Hq|].
    destruct (isDecided (nodeState w)) eqn:Hid; simpl; [exact Hq|].
    intros Hd. unfold isDecided in Hid. rewrite Hd in Hid. discriminate.
  - intros [= <-]. exact Hq.
  - simpl. destruct (killed (nodeState w) || isFaulty cfg) eqn:Hlive.
    + rewrite (proj1 (postMessage_effect cfg w m) Hlive). intros [= <-]. exact Hq.
    + destruct (proj2 (postMessage_effect cfg w m) Hlive)
        as (w1 & -> & Hs & Hta & _).
      intros [= <-]. rewrite Hs, Hta. exact Hq.
  - intros H. apply step_resume_inv in H as [[_ ->]|(t & w1 & ts & Hi & Hr & ->)];
      [exact Hq|].
    assert (Hone : tasks w = [t]).
    { destruct (tasks w) as [|t0 [|t1 l]]; simpl in *; try lia; [discriminate|].
      destruct i; simpl in Hi; [congruence|discriminate]. }
    assert (Hnd : decided (nodeState w) ≠ Some true).
    { intros Hd. rewrite (Hq Hd) in Hone. discriminate. }
    destruct (resume_tasks cfg _ _ _ _ _ Hr) as [Ht _].
    simpl. intros Hd. rewrite Ht. simpl.
    rewrite (resume_decides_ends cfg (setTasks w (delete i (tasks w))) _ _ _ _ Hnd Hr Hd).
    rewrite Hone in Hi |- *. destruct i; [reflexivity|discriminate].
Qed.

Lemma exec_single_run (cfg : Config) (es : list Event) (w w' : World) :
  length (tasks w) + countStarts es ≤ 1 →
  (decided (nodeState w) = Some true → tasks w = []) →
  exec cfg w es = Some w' →
  decided (nodeState w') = Some true → tasks w' = [].
Proof.
  revert w. induction es as [|e es IH]; intros w Hlen Hq; simpl.
  - intros [= <-]. exact Hq.
  - destruct (step cfg w e) as [w1|] eqn:E; [|discriminate].
    pose proof (step_tasks_length cfg w w1 e E) as H1.
    unfold countStarts in *. simpl in Hlen.
    apply IH.
    + unfold countStarts. destruct (isStart e); simpl in *; lia.
    + apply (step_single_run cfg w w1 e); [|exact Hq|exact E].
      destruct (isStart e); simpl in *; lia.
Qed.

(** X10: if the node has received at most one start request, a decision it
    reaches is final: in every continuation of the run, with any further
    requests (more start requests included), messages and resumptions, [x]
    and [k] keep the values they had when the node was found decided, and
    [decided] stays true. *)
Theorem single_start_decision_final (cfg : Config) (es : list Event) :
  countStarts es ≤ 1 →
  ∃ w, exec cfg (initialWorld cfg) es = Some w
       ∧ (decided (nodeState w) = Some true →
          ∀ es', ∃ w', exec cfg w es' = Some w'
                       ∧ x (nodeState w') = x (nodeState w)
                       ∧ k (nodeState w') = k (nodeState w)
                       ∧ decided (nodeState w') = Some true).
Proof.
  intros Hc. destruct (run_total cfg es) as (w & He & Hw & _).
  exists w. split; [exact He|]. intros Hd es'.
  assert (Ht : tasks w = []).
  { apply (exec_single_run cfg es (initialWorld cfg) w); simpl; auto. }
  destruct (exec_wellFormed cfg es' w Hw) as (w' & He' & _).
  exists w'. split; [exact He'|].
  destruct (exec_quiescent cfg es' w w' Hd Ht He') as (Hx & Hk & Hd' & _). auto.
Qed.

Lemma single_start_decision_final_witness :
  ∃ w, exec fourNodes (initialWorld fourNodes) runVotesForZero = Some w
       ∧ (decided (nodeState w) = Some true →
          ∃ w', exec fourNodes w [Start; Resume 0 true] = Some w'
                ∧ x (nodeState w') = x (nodeState w)).
Proof.
  destruct (single_start_decision_final fourNodes runVotesForZero) as (w & He & H).
  - vm_compute. lia.
  - exists w. split; [exact He|]. intros Hd.
    destruct (H Hd [Start; Resume 0 true]) as (w' & He' & Hx & _). eauto.
Defined.

(** ** The readiness gate *)

Lemma resume_outbox (cfg : Config) (w w' : World) (t : Task) (ready : bool)
    (ts : list Task) :
  resume cfg w t ready = Some (w', ts) →
  outbox w' = outbox w
  ∨ (ready = true ∧ killed (nodeState w) = false
     ∧ ∃ m, outbox w' = outbox w ++ List.map (fun j => mkDelivery j m) (peers cfg)).
Proof.
  intros E. destruct t; resume_cases E w ready; simpl; eauto 6.
Qed.

(** X11: a step either leaves the record of delivery attempts as it is, or
    it is a resumption during which the readiness gate answered true on a
    node that is not killed, and then exactly one message goes out, once to
    every peer.  Requests and inbound messages never make the node send, and
    nothing is sent while the gate answers false. *)
Theorem sends_only_when_ready (cfg : Config) (w w' : World) (e : Event) :
  step cfg w e = Some w' →
  outbox w' = outbox w
  ∨ ∃ i m,
      e = Resume i true
      ∧ killed (nodeState w) = false
      ∧ outbox w' = outbox w ++ List.map (fun j => mkDelivery j m) (peers cfg).
Proof.
  destruct e as [| |m|i ready].
  - intros [= <-]. left. unfold getStart.
    destruct (isFaulty cfg || killed (nodeState w)); [reflexivity|].
    destruct (negb (isDecided (nodeState w))); reflexivity.
  - intros [= <-]. left. reflexivity.
  - simpl. destruct (killed (nodeState w) || isFaulty cfg) eqn:Hlive.
    + rewrite (proj1 (postMessage_effect cfg w m) Hlive). intros [= <-]. auto.
    + destruct (proj2 (postMessage_effect cfg w m) Hlive) as (w1 & -> & _ & _ & Ho & _).
      intros [= <-]. auto.
  - intros H. apply step_resume_inv in H as [[_ ->]|(t & w1 & ts & Hi & Hr & ->)];
      [auto|].
    destruct (resume_outbox cfg (setTasks w (delete i (tasks w))) _ _ _ _ Hr)
      as [Ho|(-> & Hk & m & Ho)]; simpl; [auto|].
    right. exists i, m. auto.
Qed.

Lemma sends_only_when_ready_witness :
  ∃ w', step fourNodes (getStart fourNodes (initialWorld fourNodes)) (Resume 0 false)
        = Some w'
        ∧ outbox w' = [].
Proof.
  destruct (step fourNodes (getStart fourNodes (initialWorld fourNodes)) (Resume 0 false))
    as [w'|] eqn:E; [|vm_compute in E; discriminate E].
  exists w'. split; [reflexivity|].
  destruct (sends_only_when_ready fourNodes _ _ _ E) as [Ho|(i & m & He & _)].
  - exact Ho.
  - discriminate He.
Defined.

(** ** The tally along a run *)

(** X12: tracking a round never resets a tally: [initializeRoundTracking]
    leaves every counter of both tables as it was, makes the round tracked,
    keeps every existing entry, and doing it twice is doing it once. *)
Theorem initializeRoundTracking_keeps_counts (log : MessageLog) (r : nat) :
  (∀ ty r' v, countOf (initializeRoundTracking r log) ty r' v = countOf log ty r' v)
  ∧ (∀ ty r' b, table log ty !! r' = Some b →
       table (initializeRoundTracking r log) ty !! r' = Some b)
  ∧ (∀ ty, is_Some (table (initializeRoundTracking r log) ty !! r))
  ∧ initializeRoundTracking r (initializeRoundTracking r log)
    = initializeRoundTracking r log.
Proof.
  split; [|split; [|split]].
  - intros ty r' v. unfold countOf. destruct ty; simpl; apply ensureRound_count.
  - intros ty r' b. destruct ty; simpl; apply ensureRound_keeps.
  - intros ty. destruct ty; simpl; apply ensureRound_present.
  - unfold initializeRoundTracking. simpl.
    destruct (ensureRound_present (proposals log) r) as [p Hp].
    destruct (ensureRound_present (votes log) r) as [v Hv].
    f_equal.
    + unfold ensureRound at 1. by rewrite Hp.
    + unfold ensureRound at 1. by rewrite Hv.
Qed.

Lemma initializeRoundTracking_keeps_counts_witness :
  table (initializeRoundTracking 2 (mkLog {[ 2 := mkBuckets 3 1 0 ]} ∅)) proposal !! 2
  = Some (mkBuckets 3 1 0).
Proof.
  apply (proj1 (proj2 (initializeRoundTracking_keeps_counts
                         (mkLog {[ 2 := mkBuckets 3 1 0 ]} ∅) 2)) proposal).
  reflexivity.
Defined.

Lemma countOf_initialize (log : MessageLog) (r : nat) (ty : MessageType) (r' : nat)
    (v : Value) :
  countOf (initializeRoundTracking r log) ty r' v = countOf log ty r' v.
Proof. unfold countOf. destruct ty; simpl; apply ensureRound_count. Qed.

(** A resumption touches the log at most by tracking a round, and never
    the killed flag. *)
Lemma resume_log (cfg : Config) (w w' : World) (t : Task) (ready : bool)
    (ts : list Task) :
  resume cfg w t ready = Some (w', ts) →
  killed (nodeState w') = killed (nodeState w)
  ∧ (messageLog w' = messageLog w
     ∨ ∃ r, messageLog w' = initializeRoundTracking r (messageLog w)).
Proof.
  intros E. destruct t; resume_cases E w ready; simpl; eauto.
Qed.

Lemma arrives_decide (ty : MessageType) (r : nat) (v : Value) (m : ConsensusMessage) :
  arrives ty r v (Message m)
  = bool_decide (ty = type m ∧ r = round m ∧ v = value m).
Proof.
  unfold arrives.
  destruct (bool_decide_reflect (type m = ty)), (Nat.eqb_spec (round m) r),
    (bool_decide_reflect (value m = v)); simpl; symmetry;
    first [ apply bool_decide_eq_true_2; repeat split; congruence
          | apply bool_decide_eq_false_2; intros (? & ? & ?); congruence ].
Qed.

Lemma step_counts (cfg : Config) (w w' : World) (e : Event) :
  isFaulty cfg = false →
  killed (nodeState w) = false →
  isStop e = false →
  step cfg w e = Some w' →
  killed (nodeState w') = false
  ∧ ∀ ty r v,
      countOf (messageLog w') ty r v
      = countOf (messageLog w) ty r v + (if arrives ty r v e then 1 else 0).
Proof.
  intros Hf Hk Hs. destruct e as [| |m|i ready]; [| discriminate | |].
  - intros [= <-]. unfold getStart.
    destruct (isFaulty cfg || killed (nodeState w)); [|destruct (negb _)];
      simpl; split; auto; intros; lia.
  - assert (Hlive : killed (nodeState w) || isFaulty cfg = false) by (by rewrite Hk, Hf).
    simpl step. destruct (proj2 (postMessage_effect cfg w m) Hlive)
      as (w1 & -> & Hst & _ & _ & Hc & _).
    intros [= <-]. rewrite Hst. split; [exact Hk|]. intros ty r v.
    rewrite Hc, arrives_decide. case_decide.
    + rewrite bool_decide_true by assumption. lia.
    + rewrite bool_decide_false by assumption. lia.
  - intros H. apply step_resume_inv in H as [[_ ->]|(t & w1 & ts & Hi & Hr & ->)].
    { split; [exact Hk|]. intros. simpl. lia. }
    destruct (resume_log cfg (setTasks w (delete i (tasks w))) _ _ _ _ Hr)
      as (Hk1 & [Hl|[r0 Hl]]); simpl in *.
    + rewrite Hk1, Hl. split; [exact Hk|]. intros. lia.
    + rewrite Hk1, Hl. split; [exact Hk|]. intros. rewrite countOf_initialize. lia.
Qed.

Lemma exec_counts (cfg : Config) (es : list Event) (w w' : World) :
  isFaulty cfg = false →
  killed (nodeState w) = false →
  exec cfg w es = Some w' →
  ∀ ty r v,
    countOf (messageLog w') ty r v
    = countOf (messageLog w) ty r v + arrivals ty r v (untilStop es).
Proof.
  intros Hf. revert w. induction es as [|e es IH]; intros w Hk; simpl.
  - intros [= <-] ty r v. unfold arrivals. simpl. lia.
  - destruct (step cfg w e) as [w1|] eqn:E; [|discriminate]. intros He ty r v.
    destruct (isStop e) eqn:Hs.
    + destruct e; try discriminate. injection E as <-.
      destruct (exec_killed cfg (getStop w) w' es eq_refl He) as (_ & -> & _).
      unfold arrivals. simpl. lia.
    + destruct (step_counts cfg w w1 e Hf Hk Hs E) as (Hk1 & Hc).
      rewrite (IH w1 Hk1 He), Hc. unfold arrivals. simpl.
      destruct (arrives ty r v e); simpl; lia.
Qed.

(** X13: on a non-faulty node, after any run, each counter of the message
    log is exactly the number of messages for its (type, round, value) that
    arrived before the first stop request, however the arrivals were
    interleaved with round segments and start requests; messages arriving
    after a stop are not counted. *)
Theorem tally_counts_arrivals (cfg : Config) (es : list Event) :
  isFaulty cfg = false →
  ∃ w, exec cfg (initialWorld cfg) es = Some w
       ∧ ∀ ty r v, countOf (messageLog w) ty r v = arrivals ty r v (untilStop es).
Proof.
  intros Hf. destruct (run_total cfg es) as (w & He & _).
  exists w. split; [exact He|]. intros ty r v.
  rewrite (exec_counts cfg es (initialWorld cfg) w Hf eq_refl He ty r v).
  unfold countOf. destruct ty; simpl; rewrite lookup_empty; reflexivity.
Qed.

Lemma tally_counts_arrivals_witness :
  ∃ w, exec fourNodes (initialWorld fourNodes)
         [Message (mkMessage vote V0 3 1); Start; Message (mkMessage vote V0 3 2);
          Resume 0 true; Stop; Message (mkMessage vote V0 3 3)] = Some w
       ∧ countOf (messageLog w) vote 3 V0 = 2.
Proof.
  destruct (tally_counts_arrivals fourNodes
              [Message (mkMessage vote V0 3 1); Start; Message (mkMessage vote V0 3 2);
               Resume 0 true; Stop; Message (mkMessage vote V0 3 3)] eq_refl)
    as (w & He & Hc).
  exists w. split; [exact He|]. exact (Hc vote 3 V0).
Defined.

Lemma logGrows_refl (log : MessageLog) : logGrows log log.
Proof. split; auto. Qed.

Lemma logGrows_trans (l1 l2 l3 : MessageLog) :
  logGrows l1 l2 → logGrows l2 l3 → logGrows l1 l3.
Proof.
  intros [H1 H2] [H3 H4]. split; [auto|].
  intros ty r v. specialize (H2 ty r v). specialize (H4 ty r v). lia.
Qed.

Lemma logGrows_initialize (log : MessageLog) (r : nat) :
  logGrows log (initializeRoundTracking r log).
Proof.
  split.
  - intros ty r' [b Hb]. exists b. destruct ty; simpl in *; by apply ensureRound_keeps.
  - intros ty r' v. rewrite countOf_initialize. lia.
Qed.

Lemma step_logGrows (cfg : Config) (w w' : World) (e : Event) :
  step cfg w e = Some w' → logGrows (messageLog w) (messageLog w').
Proof.
  destruct e as [| |m|i ready].
  - intros [= <-]. unfold getStart.
    destruct (isFaulty cfg || killed (nodeState w)); [|destruct (negb _)];
      apply logGrows_refl.
  - intros [= <-]. apply logGrows_refl.
  - simpl. destruct (killed (nodeState w) || isFaulty cfg) eqn:Hlive.
    + rewrite (proj1 (postMessage_effect cfg w m) Hlive). intros [= <-].
      apply logGrows_refl.
    + destruct (proj2 (postMessage_effect cfg w m) Hlive)
        as (w1 & -> & _ & _ & _ & Hc & Hp & Ho & _).
      intros [= <-]. split.
      * intros ty r Hs. destruct (decide (r = round m)) as [->|Hne]; [apply Hp|].
        by rewrite Ho.
      * intros ty r v. rewrite Hc. case_decide; lia.
  - intros H. apply step_resume_inv in H as [[_ ->]|(t & w1 & ts & Hi & Hr & ->)];
      [apply logGrows_refl|].
    destruct (resume_log cfg (setTasks w (delete i (tasks w))) _ _ _ _ Hr)
      as (_ & [Hl|[r0 Hl]]); simpl in *; rewrite Hl;
      [apply logGrows_refl|apply logGrows_initialize].
Qed.

Lemma exec_logGrows (cfg : Config) (es : list Event) (w w' : World) :
  exec cfg w es = Some w' → logGrows (messageLog w) (messageLog w').
Proof.
  revert w. induction es as [|e es IH]; intros w; simpl.
  - intros [= <-]. apply logGrows_refl.
  - destruct (step cfg w e) as [w1|] eqn:E; [|discriminate]. intros He.
    exact (logGrows_trans _ _ _ (step_logGrows cfg w w1 e E) (IH w1 He)).
Qed.

(** X14: the message log only grows.  Along any run of any node no round
    entry is ever dropped and no counter ever decreases. *)
Theorem log_only_grows (cfg : Config) (w w' : World) (es : list Event) :
  exec cfg w es = Some w' →
  (∀ ty r, is_Some (table (messageLog w) ty !! r) →
           is_Some (table (messageLog w') ty !! r))
  ∧ (∀ ty r v, countOf (messageLog w) ty r v ≤ countOf (messageLog w') ty r v).
Proof. exact (exec_logGrows cfg es w w'). Qed.

Lemma log_only_grows_witness :
  ∃ w', exec fourNodes (tallyWorld 2 (mkBuckets 1 0 0) (mkBuckets 0 2 0))
          [Message (mkMessage vote V1 2 3); Stop; Start] = Some w'
        ∧ 2 ≤ countOf (messageLog w') vote 2 V1.
Proof.
  destruct (exec fourNodes (tallyWorld 2 (mkBuckets 1 0 0) (mkBuckets 0 2 0))
              [Message (mkMessage vote V1 2 3); Stop; Start])
    as [w'|] eqn:E; [|vm_compute in E; discriminate E].
  exists w'. split; [reflexivity|].
  exact (proj2 (log_only_grows fourNodes _ _ _ E) vote 2 V1).
Defined.

(** X15: the finalization condition is stable.  Once [checkFinalDecision]
    holds for a round, it holds for that round after any further run:
    later messages, requests and round segments cannot undo it. *)
Theorem finalization_stable (cfg : Config) (w w' : World) (es : list Event) (r : nat) :
  exec cfg w es = Some w' →
  checkFinalDecision cfg (messageLog w) r = Some true →
  checkFinalDecision cfg (messageLog w') r = Some true.
Proof.
  intros He Hc. destruct (exec_logGrows cfg es w w' He) as [Hp Hle].
  destruct (votes (messageLog w) !! r) as [v|] eqn:Hv.
  2:{ unfold checkFinalDecision in Hc. rewrite Hv in Hc. discriminate. }
  destruct (Hp vote r) as [v' Hv']; [simpl; rewrite Hv; eauto|]. simpl in Hv'.
  apply (checkFinalDecision_true_iff cfg _ _ _ Hv) in Hc as [Hr Hc].
  apply (checkFinalDecision_true_iff cfg _ _ _ Hv'). split; [exact Hr|].
  pose proof (Hle vote r V0) as H0. pose proof (Hle vote r V1) as H1.
  unfold countOf in H0, H1. simpl in H0, H1. rewrite Hv, Hv' in H0, H1. simpl in *.
  lia.
Qed.

Lemma finalization_stable_witness :
  ∃ w', exec fourNodes (tallyWorld 2 (mkBuckets 1 0 0) (mkBuckets 0 2 0))
          [Message (mkMessage vote V0 2 3); Start; Resume 0 true] = Some w'
        ∧ checkFinalDecision fourNodes (messageLog w') 2 = Some true.
Proof.
  destruct (exec fourNodes (tallyWorld 2 (mkBuckets 1 0 0) (mkBuckets 0 2 0))
              [Message (mkMessage vote V0 2 3); Start; Resume 0 true])
    as [w'|] eqn:E; [|vm_compute in E; discriminate E].
  exists w'. split; [reflexivity|].
  exact (finalization_stable fourNodes _ _ _ 2 E eq_refl).
Defined.

(** ** A single node ([N = 1]) *)

Lemma step_single_node (cfg : Config) (w w' : World) (e : Event) :
  isFaulty cfg = false → N cfg = 1%Z →
  x (nodeState w) = Some (initialValue cfg) → k (nodeState w) = Some 1 →
  outbox w = [] → Forall (fun t => t = RunTimer) (tasks w) →
  step cfg w e = Some w' →
  x (nodeState w') = Some (initialValue cfg) ∧ k (nodeState w') = Some 1
  ∧ outbox w' = [] ∧ Forall (fun t => t = RunTimer) (tasks w')
  ∧ (decided (nodeState w') = decided (nodeState w)
     ∨ decided (nodeState w') = Some true).
Proof.
  intros Hf HN Hx Hk Ho Ht. destruct e as [| |m|i ready].
  - intros [= <-]. unfold getStart.
    destruct (isFaulty cfg || killed (nodeState w)); [auto 6|].
    destruct (negb (isDecided (nodeState w))); [|auto 6].
    simpl. repeat split; auto. apply Forall_app. split; [exact Ht|].
    apply List.Forall_cons; [reflexivity|apply List.Forall_nil].
  - intros [= <-]. simpl. auto 6.
  - simpl. destruct (killed (nodeState w) || isFaulty cfg) eqn:Hlive.
    + rewrite (proj1 (postMessage_effect cfg w m) Hlive). intros [= <-]. auto 6.
    + destruct (proj2 (postMessage_effect cfg w m) Hlive)
        as (w1 & -> & Hst & Hta & Hou & _).
      intros [= <-]. rewrite Hst, Hta, Hou. auto 6.
  - intros H. apply step_resume_inv in H as [[_ ->]|(t & w1 & ts & Hi & Hr & ->)];
      [auto 6|].
    assert (t = RunTimer) as ->.
    { rewrite Forall_lookup in Ht. exact (Ht i t Hi). }
    simpl in Hr. unfold runConsensusProtocol in Hr. rewrite HN in Hr. simpl in Hr.
    injection Hr as <- <-. simpl. rewrite Ho, app_nil_r.
    repeat split; auto. by apply Forall_delete.
Qed.

(** X16: a non-faulty node with [N = 1] never runs a round.  In every run
    it sends nothing, its value stays the initial one and its round number
    stays 1, only timers are ever pending, and firing any pending timer
    leaves it decided, whether or not it has been stopped meanwhile. *)
Theorem single_node_run (cfg : Config) (es : list Event) :
  isFaulty cfg = false → N cfg = 1%Z →
  ∃ w, exec cfg (initialWorld cfg) es = Some w
       ∧ outbox w = []
       ∧ x (nodeState w) = Some (initialValue cfg)
       ∧ k (nodeState w) = Some 1
       ∧ Forall (fun t => t = RunTimer) (tasks w)
       ∧ ∀ i ready, i < length (tasks w) →
           ∃ w', step cfg w (Resume i ready) = Some w'
                 ∧ decided (nodeState w') = Some true
                 ∧ x (nodeState w') = Some (initialValue cfg)
                 ∧ k (nodeState w') = Some 1.
Proof.
  intros Hf HN.
  assert (Hinv : ∀ es w w',
            x (nodeState w) = Some (initialValue cfg) → k (nodeState w) = Some 1 →
            outbox w = [] → Forall (fun t => t = RunTimer) (tasks w) →
            exec cfg w es = Some w' →
            x (nodeState w') = Some (initialValue cfg) ∧ k (nodeState w') = Some 1
            ∧ outbox w' = [] ∧ Forall (fun t => t = RunTimer) (tasks w')).
  { clear es. induction es as [|e es IH]; intros w w' Hx Hk Ho Ht; simpl.
    - intros [= <-]. auto.
    - destruct (step cfg w e) as [w1|] eqn:E; [|discriminate].
      destruct (step_single_node cfg w w1 e Hf HN Hx Hk Ho Ht E)
        as (Hx1 & Hk1 & Ho1 & Ht1 & _).
      apply IH; assumption. }
  destruct (run_total cfg es) as (w & He & _). exists w. split; [exact He|].
  destruct (Hinv es (initialWorld cfg) w) as (Hx & Hk & Ho & Ht); simpl; auto.
  { by rewrite Hf. } { by rewrite Hf. }
  split; [exact Ho|]. split; [exact Hx|]. split; [exact Hk|]. split; [exact Ht|].
  intros i ready Hi. apply lookup_lt_is_Some in Hi as [t Hi].
  assert (t = RunTimer) as ->.
  { rewrite Forall_lookup in Ht. exact (Ht i t Hi). }
  simpl. rewrite Hi. simpl. unfold runConsensusProtocol. rewrite HN. simpl.
  eexists. split; [reflexivity|]. simpl. auto.
Qed.

Lemma single_node_run_witness :
  ∃ w, exec singleNodeOneFault (initialWorld singleNodeOneFault)
         [Start; Stop; Message (mkMessage vote V1 1 0)] = Some w
       ∧ outbox w = []
       ∧ ∃ w', step singleNodeOneFault w (Resume 0 true) = Some w'
               ∧ decided (nodeState w') = Some true.
Proof.
  destruct (single_node_run singleNodeOneFault
              [Start; Stop; Message (mkMessage vote V1 1 0)] eq_refl eq_refl)
    as (w & He & Ho & _ & _ & _ & Hd).
  exists w. split; [exact He|]. split; [exact Ho|].
  assert (Hlen : 0 < length (tasks w)).
  { vm_compute in He. injection He as <-. simpl. lia. }
  destruct (Hd 0 true Hlen) as (w' & Hs & Hdec & _). eauto.
Defined.

(** ** Whole rounds *)

Lemma determineConsensusValue_counts (log : MessageLog) (r : nat) (cv : Value) :
  determineConsensusValue log r = Some cv →
  (countOf log proposal r V1 < countOf log proposal r V0 → cv = V0)
  ∧ (countOf log proposal r V0 < countOf log proposal r V1 → cv = V1)
  ∧ (countOf log proposal r V0 = countOf log proposal r V1 → cv = roundParity r).
Proof.
  unfold determineConsensusValue, countOf. simpl.
  destruct (proposals log !! r) as [p|]; [|discriminate]. simpl.
  intros [= <-].
  destruct (Nat.ltb_spec (count1 p) (count0 p));
    destruct (Nat.ltb_spec (count0 p) (count1 p));
    repeat split; intros; first [reflexivity|lia].
Qed.

(** The three segments of a round run alone, with the candidate traced to
    the proposal tally on which it was computed. *)
Lemma round_outcome_candidate (cfg : Config) (w : World) (r : nat)
    (ms1 ms2 : list ConsensusMessage) :
  isFaulty cfg = false → N cfg ≠ 1%Z →
  killed (nodeState w) = false →
  decided (nodeState w) = Some false →
  k (nodeState w) = Some r →
  tasks w = [RunTimer] →
  ∃ w1 w2 cv w3,
    exec cfg w (Resume 0 true :: List.map Message ms1) = Some w1
    ∧ determineConsensusValue (messageLog w1) r = Some cv
    ∧ (countOf (messageLog w1) proposal r V1 < countOf (messageLog w1) proposal r V0 →
       cv = V0)
    ∧ (countOf (messageLog w1) proposal r V0 < countOf (messageLog w1) proposal r V1 →
       cv = V1)
    ∧ (countOf (messageLog w1) proposal r V0 = countOf (messageLog w1) proposal r V1 →
       cv = roundParity r)
    ∧ exec cfg w1 (Resume 0 true :: List.map Message ms2) = Some w2
    ∧ outbox w2
      = outbox w1 ++ List.map (fun i => mkDelivery i (voteMessage cfg r cv)) (peers cfg)
    ∧ exec cfg w (Resume 0 true :: List.map Message ms1
                  ++ Resume 0 true :: List.map Message ms2) = Some w2
    ∧ nodeState w2 = nodeState w
    ∧ tasks w2 = [VoteSettle r cv]
    ∧ step cfg w2 (Resume 0 true) = Some w3
    ∧ (decided (nodeState w3) = Some true
       ↔ 2 ≤ r ∧ ((N cfg / 2 ≤ Z.of_nat (countOf (messageLog w2) vote r V0))%Z
                  ∨ (N cfg / 2 ≤ Z.of_nat (countOf (messageLog w2) vote r V1))%Z))
    ∧ (decided (nodeState w3) = Some true →
       x (nodeState w3) = Some cv ∧ k (nodeState w3) = Some r ∧ tasks w3 = [])
    ∧ (decided (nodeState w3) ≠ Some true →
       x (nodeState w3) = Some (roundParity r) ∧ k (nodeState w3) = Some (r + 1)
       ∧ tasks w3 = [RunTimer]).
Proof.
  intros Hf HN Hk Hd Hr Ht.
  pose proof (step_round_begins cfg w r Hf HN Hk Hd Hr Ht) as H1.
  set (w0 := mkWorld (nodeState w) (initializeRoundTracking r (messageLog w))
               [ProposalSettle r]
               (outbox w
                ++ List.map
                     (fun i => mkDelivery i
                        (proposalMessage cfg r
                           (default (roundParity r) (x (nodeState w)))))
                     (peers cfg))) in H1.
  destruct (exec_messages cfg w0 ms1) as (wa & Ha & Has & Hat & Hao & Ham).
  assert (Htr : tracked (messageLog wa) r) by (apply Ham, tracked_initialize).
  destruct Htr as [[p Hp] _].
  assert (Hcv : ∃ cv, determineConsensusValue (messageLog wa) r = Some cv).
  { unfold determineConsensusValue. rewrite Hp. eauto. }
  destruct Hcv as [cv Hcv].
  assert (H2 := step_vote_cast cfg wa r cv Hf).
  rewrite Has, Hat in H2. specialize (H2 Hk eq_refl Hcv).
  set (wb := mkWorld (nodeState w) (messageLog wa) [VoteSettle r cv]
               (outbox wa
                ++ List.map (fun i => mkDelivery i (voteMessage cfg r cv)) (peers cfg)))
    in H2.
  destruct (exec_messages cfg wb ms2) as (w2 & Hb & Hbs & Hbt & Hbo & Hbm).
  assert (Htr : tracked (messageLog w2) r).
  { apply Hbm. apply Ham, tracked_initialize. }
  destruct Htr as [_ [v Hv]].
  assert (Hd2 : decided (nodeState w2) = Some false) by (rewrite Hbs; exact Hd).
  destruct (decideOrAdvance_outcome cfg (setTasks w2 []) r cv v Hd2 Hv)
    as (w3 & ts & He & Hiff & Hyes & Hno).
  destruct (determineConsensusValue_counts _ _ _ Hcv) as (Hc0 & Hc1 & Hceq).
  exists wa, w2, cv, (setTasks w3 (tasks w3 ++ ts)).
  split; [rewrite exec_cons, H1; exact Ha|].
  split; [exact Hcv|]. split; [exact Hc0|]. split; [exact Hc1|]. split; [exact Hceq|].
  split; [rewrite exec_cons, H2; exact Hb|].
  split; [rewrite Hbo; reflexivity|].
  split.
  { rewrite exec_cons, H1, exec_app, Ha, exec_cons, H2. exact Hb. }
  split; [rewrite Hbs; reflexivity|]. split; [exact Hbt|].
  split.
  { rewrite (step_round_ends cfg w2 r cv true Hbt), He. reflexivity. }
  assert (Hv0 : countOf (messageLog w2) vote r V0 = count0 v)
    by (unfold countOf; simpl; rewrite Hv; reflexivity).
  assert (Hv1 : countOf (messageLog w2) vote r V1 = count1 v)
    by (unfold countOf; simpl; rewrite Hv; reflexivity).
  rewrite Hv0, Hv1. simpl nodeState. simpl tasks.
  split; [exact Hiff|]. split.
  - intros Hy. destruct (Hyes Hy) as (Hx & Hk3 & Hts & Ht3).
    rewrite Hx, Hk3, Hts, Ht3. simpl.
    rewrite Hbs. unfold wb. simpl. rewrite Hr. auto.
  - intros Hn. destruct (Hno Hn) as (Hx & Hk3 & Hts & Ht3).
    rewrite Hx, Hk3, Hts, Ht3. simpl. auto.
Qed.

(** X17: one whole round of a single run on a live, undecided node whose
    peers are ready, with any messages arriving during the two settling
    intervals.  After the first interval the candidate is what
    [determineConsensusValue] gives on the log as it stands then: the value
    with the strictly higher proposal count for the round, the parity of the
    round on a tie; that candidate is what the node votes.  The run reaches
    its last segment with the node state untouched; that segment decides the
    candidate and keeps the round number exactly when the round is at least
    2 and the vote tally of 0 or of 1, as it stands then, has reached
    [floor(N/2)]; otherwise the node moves to the next round with the parity
    of the old one as its value and exactly one new run pending. *)
Theorem whole_round_outcome (cfg : Config) (w : World) (r : nat)
    (ms1 ms2 : list ConsensusMessage) :
  isFaulty cfg = false → N cfg ≠ 1%Z →
  killed (nodeState w) = false →
  decided (nodeState w) = Some false →
  k (nodeState w) = Some r →
  tasks w = [RunTimer] →
  ∃ w1 w2 cv w3,
    exec cfg w (Resume 0 true :: List.map Message ms1) = Some w1
    ∧ determineConsensusValue (messageLog w1) r = Some cv
    ∧ (countOf (messageLog w1) proposal r V1 < countOf (messageLog w1) proposal r V0 →
       cv = V0)
    ∧ (countOf (messageLog w1) proposal r V0 < countOf (messageLog w1) proposal r V1 →
       cv = V1)
    ∧ (countOf (messageLog w1) proposal r V0 = countOf (messageLog w1) proposal r V1 →
       cv = roundParity r)
    ∧ exec cfg w1 (Resume 0 true :: List.map Message ms2) = Some w2
    ∧ outbox w2
      = outbox w1 ++ List.map (fun i => mkDelivery i (voteMessage cfg r cv)) (peers cfg)
    ∧ exec cfg w (Resume 0 true :: List.map Message ms1
                  ++ Resume 0 true :: List.map Message ms2) = Some w2
    ∧ nodeState w2 = nodeState w
    ∧ tasks w2 = [VoteSettle r cv]
    ∧ step cfg w2 (Resume 0 true) = Some w3
    ∧ (decided (nodeState w3) = Some true
       ↔ 2 ≤ r ∧ ((N cfg / 2 ≤ Z.of_nat (countOf (messageLog w2) vote r V0))%Z
                  ∨ (N cfg / 2 ≤ Z.of_nat (countOf (messageLog w2) vote r V1))%Z))
    ∧ (decided (nodeState w3) = Some true →
       x (nodeState w3) = Some cv ∧ k (nodeState w3) = Some r ∧ tasks w3 = [])
    ∧ (decided (nodeState w3) ≠ Some true →
       x (nodeState w3) = Some (roundParity r) ∧ k (nodeState w3) = Some (r + 1)
       ∧ tasks w3 = [RunTimer]).
Proof. exact (round_outcome_candidate cfg w r ms1 ms2). Qed.

(** In round 1 of node 0 of four, one peer proposal for 1 arrives before the
    candidate is computed: the candidate, and the vote, is 1. *)
Lemma whole_round_outcome_witness :
  ∃ w2 w3,
    exec fourNodes (getStart fourNodes (initialWorld fourNodes))
      (Resume 0 true :: List.map Message [mkMessage proposal V1 1 2]
       ++ Resume 0 true :: List.map Message [mkMessage vote V1 1 2]) = Some w2
    ∧ tasks w2 = [VoteSettle 1 V1]
    ∧ step fourNodes w2 (Resume 0 true) = Some w3.
Proof.
  destruct (whole_round_outcome fourNodes (getStart fourNodes (initialWorld fourNodes)) 1
              [mkMessage proposal V1 1 2] [mkMessage vote V1 1 2]
              eq_refl ltac:(discriminate) eq_refl eq_refl eq_refl eq_refl)
    as (w1 & w2 & cv & w3 & He1 & Hcv & _ & _ & _ & _ & _ & He & _ & Ht & Hs & _).
  assert (Hv : cv = V1).
  { vm_compute in He1. injection He1 as <-. vm_compute in Hcv. congruence. }
  subst cv. exists w2, w3. auto.
Defined.

Lemma silentLog_initialize (log : MessageLog) (r : nat) :
  silentLog log → silentLog (initializeRoundTracking r log).
Proof. intros H ty r' v. rewrite countOf_initialize. apply H. Qed.

Lemma checkFinalDecision_silent (cfg : Config) (log : MessageLog) (r : nat) :
  (2 ≤ N cfg)%Z → silentLog log → tracked log r →
  checkFinalDecision cfg log r = Some false.
Proof.
  intros HN Hs [_ [v Hv]]. unfold checkFinalDecision. rewrite Hv.
  pose proof (Hs vote r V0) as H0. pose proof (Hs vote r V1) as H1.
  unfold countOf in H0, H1. simpl in H0, H1. rewrite Hv in H0, H1. simpl in H0, H1.
  rewrite H0, H1.
  assert (1 ≤ N cfg / 2)%Z by (apply Z.div_le_lower_bound; lia).
  rewrite (proj2 (Z.leb_gt (N cfg / 2) (Z.of_nat 0))) by lia. reflexivity.
Qed.

(** One silent round: the node ends it undecided in the next round. *)
Lemma quiet_round (cfg : Config) (w : World) (r : nat) :
  isFaulty cfg = false → (2 ≤ N cfg)%Z →
  killed (nodeState w) = false →
  decided (nodeState w) = Some false →
  k (nodeState w) = Some r →
  tasks w = [RunTimer] →
  silentLog (messageLog w) →
  ∃ w',
    exec cfg w [Resume 0 true; Resume 0 true; Resume 0 true] = Some w'
    ∧ killed (nodeState w') = false
    ∧ decided (nodeState w') = Some false
    ∧ k (nodeState w') = Some (r + 1)
    ∧ x (nodeState w') = Some (roundParity r)
    ∧ tasks w' = [RunTimer]
    ∧ silentLog (messageLog w').
Proof.
  intros Hf HN Hk Hd Hr Ht Hs.
  assert (HN1 : N cfg ≠ 1%Z) by lia.
  rewrite exec_cons, (step_round_begins cfg w r Hf HN1 Hk Hd Hr Ht).
  destruct (tracked_initialize (messageLog w) r) as [[p Hp] Hv].
  assert (Hcv : ∃ cv, determineConsensusValue
                        (initializeRoundTracking r (messageLog w)) r = Some cv).
  { unfold determineConsensusValue. rewrite Hp. eauto. }
  destruct Hcv as [cv Hcv].
  rewrite exec_cons.
  match goal with
  | |- context [step cfg ?w1 (Resume 0 true)] =>
      rewrite (step_vote_cast cfg w1 r cv Hf Hk eq_refl Hcv)
  end.
  rewrite exec_cons.
  match goal with
  | |- context [step cfg ?w2 (Resume 0 true)] =>
      rewrite (step_round_ends cfg w2 r cv true eq_refl)
  end.
  unfold decideOrAdvance. simpl.
  rewrite (checkFinalDecision_silent cfg _ r HN (silentLog_initialize _ r Hs)
             (tracked_initialize (messageLog w) r)).
  unfold isDecided. rewrite Hd. simpl.
  eexists. split; [reflexivity|]. simpl.
  repeat split; auto. by apply silentLog_initialize.
Qed.

Lemma quiet_rounds (cfg : Config) (n : nat) (w : World) (r : nat) :
  isFaulty cfg = false → (2 ≤ N cfg)%Z →
  killed (nodeState w) = false →
  decided (nodeState w) = Some false →
  k (nodeState w) = Some r →
  tasks w = [RunTimer] →
  silentLog (messageLog w) →
  ∃ w',
    exec cfg w (quietRounds n) = Some w'
    ∧ killed (nodeState w') = false
    ∧ decided (nodeState w') = Some false
    ∧ k (nodeState w') = Some (r + n)
    ∧ tasks w' = [RunTimer]
    ∧ silentLog (messageLog w')
    ∧ (1 ≤ n → x (nodeState w') = Some (roundParity (r + n - 1))).
Proof.
  intros Hf HN. revert w r. induction n as [|n IH]; intros w r Hk Hd Hr Ht Hs.
  - exists w. split; [reflexivity|]. rewrite Nat.add_0_r.
    repeat split; auto. lia.
  - destruct (quiet_round cfg w r Hf HN Hk Hd Hr Ht Hs)
      as (w1 & He1 & Hk1 & Hd1 & Hr1 & Hx1 & Ht1 & Hs1).
    destruct (IH w1 (r + 1) Hk1 Hd1 Hr1 Ht1 Hs1)
      as (w' & He & Hk' & Hd' & Hr' & Ht' & Hs' & Hx').
    exists w'. split.
    { change (quietRounds (S n))
        with ([Resume 0 true; Resume 0 true; Resume 0 true] ++ quietRounds n).
      rewrite exec_app, He1. exact He. }
    split; [exact Hk'|]. split; [exact Hd'|].
    split; [rewrite Hr'; f_equal; lia|]. split; [exact Ht'|]. split; [exact Hs'|].
    intros _. destruct n as [|n].
    + simpl in He. injection He as <-. rewrite Hx1. f_equal. f_equal. lia.
    + rewrite Hx' by lia. f_equal. f_equal. lia.
Qed.

(** X18: a node that hears nothing never decides.  On a non-faulty node
    with [N >= 2] whose peers are ready but send no message, after one start
    request and [n] whole rounds the node is undecided in round [1 + n] with
    one run pending, and its value is the parity of the last completed
    round. *)
Theorem isolated_node_never_decides (cfg : Config) (n : nat) :
  isFaulty cfg = false → (2 ≤ N cfg)%Z →
  ∃ w,
    exec cfg (initialWorld cfg) (Start :: quietRounds n) = Some w
    ∧ decided (nodeState w) = Some false
    ∧ k (nodeState w) = Some (1 + n)
    ∧ tasks w = [RunTimer]
    ∧ (1 ≤ n → x (nodeState w) = Some (roundParity n))
    ∧ ∀ ty r v, countOf (messageLog w) ty r v = 0.
Proof.
  intros Hf HN.
  assert (Hstart : getStart cfg (initialWorld cfg)
                   = mkWorld (mkNodeState false (Some (initialValue cfg)) (Some false)
                                (Some 1)) (mkLog ∅ ∅) [RunTimer] []).
  { unfold getStart, initialWorld, initialState, isDecided. simpl. rewrite Hf.
    reflexivity. }
  rewrite exec_cons. simpl step. rewrite Hstart.
  destruct (quiet_rounds cfg n
              (mkWorld (mkNodeState false (Some (initialValue cfg)) (Some false)
                          (Some 1)) (mkLog ∅ ∅) [RunTimer] [])
              1 Hf HN eq_refl eq_refl eq_refl eq_refl)
    as (w & He & _ & Hd & Hk & Ht & Hs & Hx).
  { intros ty r v. unfold countOf. destruct ty; simpl; by rewrite lookup_empty. }
  exists w. split; [exact He|]. split; [exact Hd|]. split; [exact Hk|].
  split; [exact Ht|]. split; [|exact Hs].
  intros Hn. rewrite (Hx Hn). f_equal. f_equal. lia.
Qed.

Lemma isolated_node_never_decides_witness :
  ∃ w, exec fourNodes (initialWorld fourNodes) (Start :: quietRounds 5) = Some w
       ∧ decided (nodeState w) = Some false
       ∧ k (nodeState w) = Some 6.
Proof.
  destruct (isolated_node_never_decides fourNodes 5 eq_refl) as (w & He & Hd & Hk & _).
  - simpl. lia.
  - exists w. auto.
Defined.

(** ** What a decision takes *)

(** The only step that turns an undecided node with [N] other than 1 into a
    decided one is the end of a round that finds the finalization condition
    met. *)
Lemma step_decides (cfg : Config) (w w' : World) (e : Event) :
  N cfg ≠ 1%Z →
  decided (nodeState w) = Some false →
  step cfg w e = Some w' →
  decided (nodeState w') = Some true →
  ∃ i ready r cv,
    e = Resume i ready
    ∧ tasks w !! i = Some (VoteSettle r cv)
    ∧ checkFinalDecision cfg (messageLog w) r = Some true
    ∧ x (nodeState w') = Some cv.
Proof.
  intros HN Hd. destruct e as [| |m|i ready].
  - intros [= <-]. unfold getStart.
    destruct (isFaulty cfg || killed (nodeState w)); [|destruct (negb _)];
      simpl; congruence.
  - intros [= <-]. simpl. congruence.
  - simpl. destruct (killed (nodeState w) || isFaulty cfg) eqn:Hlive.
    + rewrite (proj1 (postMessage_effect cfg w m) Hlive). intros [= <-]. congruence.
    + destruct (proj2 (postMessage_effect cfg w m) Hlive) as (w1 & -> & Hs & _).
      intros [= <-]. rewrite Hs. congruence.
  - intros H. apply step_resume_inv in H as [[_ ->]|(t & w1 & ts & Hi & Hr & ->)];
      [congruence|].
    simpl. intros Hd'.
    destruct t; resume_cases Hr w ready;
      simpl in *; try congruence.
    all: do 4 eexists; split; [reflexivity|]; split; [exact Hi|]; split;
      [eassumption|reflexivity].
Qed.

Lemma candidateAt_later (cfg : Config) (es : list Event) (e : Event) (r : nat)
    (cv : Value) :
  candidateAt cfg es r cv → candidateAt cfg (es ++ [e]) r cv.
Proof.
  intros (es1 & es2 & w0 & -> & He & Hc).
  exists es1, (es2 ++ [e]), w0. rewrite app_assoc. auto.
Qed.

(** A resumption hands on a candidate it was given, or one it has just
    computed from the proposal tally. *)
Lemma resume_vote_origin (cfg : Config) (w w' : World) (t : Task) (ready : bool)
    (ts : list Task) :
  resume cfg w t ready = Some (w', ts) →
  Forall (fun t' => ∀ r cv, t' = VoteSettle r cv ∨ t' = VoteGate r cv →
                            t = VoteGate r cv
                            ∨ (t = ProposalSettle r
                               ∧ determineConsensusValue (messageLog w) r = Some cv))
         ts.
Proof.
  intros E. destruct t; resume_cases E w ready; simpl.
  all: first [ apply List.Forall_nil
             | apply List.Forall_cons; [|apply List.Forall_nil] ].
  all: intros r0 cv0 [H|H]; try discriminate H; injection H as <- <-; auto.
Qed.

Lemma step_votesTraced (cfg : Config) (es : list Event) (w w' : World) (e : Event) :
  exec cfg (initialWorld cfg) es = Some w →
  votesTraced cfg es (tasks w) →
  step cfg w e = Some w' →
  votesTraced cfg (es ++ [e]) (tasks w').
Proof.
  intros He Hv.
  assert (Hold : votesTraced cfg (es ++ [e]) (tasks w)).
  { unfold votesTraced in *. eapply Forall_impl; [exact Hv|].
    intros t Ht r cv Hrc. apply candidateAt_later. exact (Ht r cv Hrc). }
  destruct e as [| |m|i ready].
  - intros [= <-]. unfold getStart.
    destruct (isFaulty cfg || killed (nodeState w)); [exact Hold|].
    destruct (negb (isDecided (nodeState w))); [|exact Hold].
    simpl. apply Forall_app. split; [exact Hold|].
    apply List.Forall_cons; [|apply List.Forall_nil].
    intros r cv [H|H]; discriminate H.
  - intros [= <-]. exact Hold.
  - simpl. destruct (killed (nodeState w) || isFaulty cfg) eqn:Hlive.
    + rewrite (proj1 (postMessage_effect cfg w m) Hlive). intros [= <-]. exact Hold.
    + destruct (proj2 (postMessage_effect cfg w m) Hlive) as (w1 & -> & _ & Ht & _).
      intros [= <-]. rewrite Ht. exact Hold.
  - intros H. apply step_resume_inv in H as [[_ ->]|(t & w1 & ts & Hi & Hr & ->)];
      [exact Hold|].
    destruct (resume_tasks cfg _ _ _ _ _ Hr) as [Ht1 _].
    simpl. rewrite Ht1. simpl. apply Forall_app. split.
    { by apply Forall_delete. }
    pose proof (resume_vote_origin cfg (setTasks w (delete i (tasks w))) _ _ _ _ Hr)
      as Horig.
    eapply Forall_impl; [exact Horig|]. intros t' Ht' r cv Hrc.
    destruct (Ht' r cv Hrc) as [->|[-> Hc]].
    + unfold votesTraced in Hold. rewrite Forall_lookup in Hold.
      apply (Hold i (VoteGate r cv) Hi). auto.
    + exists es, [Resume i ready], w. auto.
Qed.

Lemma run_votesTraced (cfg : Config) (es : list Event) (w : World) :
  exec cfg (initialWorld cfg) es = Some w →
  votesTraced cfg es (tasks w).
Proof.
  revert w. induction es as [|e es IH] using rev_ind; intros w.
  - intros [= <-]. constructor.
  - rewrite exec_app.
    destruct (exec cfg (initialWorld cfg) es) as [w1|] eqn:E; [|discriminate].
    rewrite exec_cons.
    destruct (step cfg w1 e) as [w2|] eqn:Es; [|discriminate].
    intros [= <-]. exact (step_votesTraced cfg es w1 w2 e E (IH w1 eq_refl) Es).
Qed.

(** X19: a decision takes a quorum of received votes.  On a non-faulty node
    with [N] other than 1, whenever a step of a run turns the node from
    undecided to decided, that step is the end of a round [r >= 2]; at least
    [floor(N/2)] votes for 0, or for 1, of round [r] had arrived at the node
    before any stop request; and the decided value is the candidate of that
    round: the value [determineConsensusValue] gave for round [r] on the log
    as it stood at an earlier point of the same run.  In particular the node
    never decides in round 1. *)
Theorem decision_needs_quorum (cfg : Config) (es : list Event) (e : Event) :
  isFaulty cfg = false → N cfg ≠ 1%Z →
  ∃ w w',
    exec cfg (initialWorld cfg) es = Some w
    ∧ step cfg w e = Some w'
    ∧ (decided (nodeState w) = Some false →
       decided (nodeState w') = Some true →
       ∃ i ready r cv,
         e = Resume i ready
         ∧ tasks w !! i = Some (VoteSettle r cv)
         ∧ 2 ≤ r
         ∧ x (nodeState w') = Some cv
         ∧ ((N cfg / 2 ≤ Z.of_nat (arrivals vote r V0 (untilStop es)))%Z
            ∨ (N cfg / 2 ≤ Z.of_nat (arrivals vote r V1 (untilStop es)))%Z)
         ∧ ∃ es1 es2 w0,
             es = es1 ++ es2
             ∧ exec cfg (initialWorld cfg) es1 = Some w0
             ∧ determineConsensusValue (messageLog w0) r = Some cv).
Proof.
  intros Hf HN. destruct (run_total cfg es) as (w & He & Hw & _).
  destruct (step_wellFormed cfg w e Hw) as (w' & Hs & _).
  exists w, w'. split; [exact He|]. split; [exact Hs|]. intros Hd Hd'.
  destruct (step_decides cfg w w' e HN Hd Hs Hd') as (i & ready & r & cv & -> & Hi & Hc & Hx).
  exists i, ready, r, cv. split; [reflexivity|]. split; [exact Hi|].
  destruct (votes (messageLog w) !! r) as [v|] eqn:Hv.
  2:{ unfold checkFinalDecision in Hc. rewrite Hv in Hc. discriminate. }
  apply (checkFinalDecision_true_iff cfg _ _ _ Hv) in Hc as [Hr Hq].
  split; [exact Hr|]. split; [exact Hx|]. split.
  - pose proof (exec_counts cfg es (initialWorld cfg) w Hf eq_refl He vote r V0) as H0.
    pose proof (exec_counts cfg es (initialWorld cfg) w Hf eq_refl He vote r V1) as H1.
    unfold countOf in H0, H1. simpl in H0, H1. rewrite Hv, lookup_empty in H0, H1.
    simpl in H0, H1. rewrite <- H0, <- H1. exact Hq.
  - pose proof (run_votesTraced cfg es w He) as Htr.
    unfold votesTraced in Htr. rewrite Forall_lookup in Htr.
    apply (Htr i (VoteSettle r cv) Hi). auto.
Qed.

(** The run [runVotesForZero] up to its last step: the step decides 1, the
    candidate computed from the proposal tally of round 2, while the quorum
    was reached by votes for 0. *)
Lemma decision_needs_quorum_witness :
  ∃ w w',
    exec fourNodes (initialWorld fourNodes)
      [ Start; Resume 0 true; Resume 0 true; Resume 0 true; Resume 0 true;
        Message (mkMessage proposal V1 2 1); Resume 0 true;
        Message (mkMessage vote V0 2 1); Message (mkMessage vote V0 2 2) ] = Some w
    ∧ step fourNodes w (Resume 0 true) = Some w'
    ∧ (decided (nodeState w) = Some false →
       decided (nodeState w') = Some true →
       ∃ r, tasks w !! 0 = Some (VoteSettle r V1) ∧ 2 ≤ r
            ∧ ∃ es1 w0,
                exec fourNodes (initialWorld fourNodes) es1 = Some w0
                ∧ determineConsensusValue (messageLog w0) r = Some V1).
Proof.
  destruct (decision_needs_quorum fourNodes
              [ Start; Resume 0 true; Resume 0 true; Resume 0 true; Resume 0 true;
                Message (mkMessage proposal V1 2 1); Resume 0 true;
                Message (mkMessage vote V0 2 1); Message (mkMessage vote V0 2 2) ]
              (Resume 0 true) eq_refl ltac:(discriminate))
    as (w & w' & He & Hs & H).
  exists w, w'. split; [exact He|]. split; [exact Hs|]. intros Hd Hd'.
  destruct (H Hd Hd')
    as (i & ready & r & cv & Hev & Hi & Hr & Hx & _ & es1 & es2 & w0 & _ & He0 & Hc).
  injection Hev as <- <-.
  assert (Hcv : cv = V1).
  { vm_compute in He. injection He as <-. vm_compute in Hi. congruence. }
  subst cv. eauto 8.
Defined.

(** ** The round number under a single start request *)

Lemma initialWorld_singleRun (cfg : Config) :
  isFaulty cfg = false → singleRun cfg (initialWorld cfg).
Proof.
  intros Hf. split; [simpl; lia|]. split; [intros t r []|].
  intros _. simpl. rewrite Hf. split; [reflexivity|constructor].
Qed.

Lemma step_singleRun (cfg : Config) (w w' : World) (e : Event) :
  singleRun cfg w →
  length (tasks w) + (if isStart e then 1 else 0) ≤ 1 →
  step cfg w e = Some w' →
  singleRun cfg w'
  ∧ (k (nodeState w') = k (nodeState w)
     ∨ ∃ r, k (nodeState w) = Some r ∧ k (nodeState w') = Some (r + 1)).
Proof.
  intros Hs Hlen. pose proof Hs as (Hl & Hr & H1). destruct e as [| |m|i ready].
  - intros [= <-]. split; [|left; unfold getStart;
      destruct (isFaulty cfg || killed (nodeState w)); [|destruct (negb _)];
      reflexivity].
    unfold getStart.
    destruct (isFaulty cfg || killed (nodeState w)); [exact Hs|].
    destruct (negb (isDecided (nodeState w))); [|exact Hs].
    simpl in Hlen. destruct (tasks w) as [|t0 l] eqn:Et; [|simpl in Hlen; lia].
    unfold singleRun. simpl. split; [lia|].
    split.
    + intros t r [<-|[]]. discriminate.
    + intros HN. destruct (H1 HN) as [Hk _]. split; [exact Hk|].
      apply List.Forall_cons; [reflexivity|apply List.Forall_nil].
  - intros [= <-]. split; [exact Hs|left; reflexivity].
  - simpl. destruct (killed (nodeState w) || isFaulty cfg) eqn:Hlive.
    + rewrite (proj1 (postMessage_effect cfg w m) Hlive). intros [= <-]. auto.
    + destruct (proj2 (postMessage_effect cfg w m) Hlive)
        as (w1 & -> & Hst & Hta & _).
      intros [= <-]. unfold singleRun. rewrite Hst, Hta. auto.
  - intros H. apply step_resume_inv in H as [[_ ->]|(t & w1 & ts & Hi & Hres & ->)];
      [auto|].
    assert (Hone : tasks w = [t] ∧ i = 0).
    { destruct (tasks w) as [|t0 [|t1 l]]; simpl in *; try lia; [discriminate|].
      destruct i; simpl in Hi; [split; congruence|discriminate]. }
    destruct Hone as [Hone ->].
    assert (Hkt : ∀ r, taskRound t = Some r → k (nodeState w) = Some r).
    { intros r. apply Hr. rewrite Hone. left. reflexivity. }
    assert (Hn1 : N cfg = 1%Z → t = RunTimer).
    { intros HN. destruct (H1 HN) as [_ Hall]. rewrite Hone in Hall.
      by inversion Hall. }
    unfold singleRun. simpl. rewrite Hone in Hres. simpl in Hres.
    destruct t; resume_cases Hres w ready; simpl in *.
    all: try match goal with
           | H : N _ = 1%Z |- _ => destruct (H1 H) as [Hk1 _]
           end.
    all: try (specialize (Hkt _ eq_refl)).
    all: split;
      [ split; [lia|]; split;
        [ intros t0 r0 Hin;
          first [ contradiction
                | destruct Hin as [<-|[]]; simpl; congruence ]
        | intros HN1; first [ contradiction | specialize (Hn1 HN1); discriminate
                            | split; [first [assumption|reflexivity]
                                     |constructor] ] ]
      | first [ left; congruence
              | right; eexists; split; [eassumption|reflexivity] ] ].
Qed.

Lemma exec_singleRun (cfg : Config) (es : list Event) (w w' : World) :
  singleRun cfg w →
  length (tasks w) + countStarts es ≤ 1 →
  exec cfg w es = Some w' →
  singleRun cfg w'.
Proof.
  revert w. induction es as [|e es IH]; intros w Hs Hlen; simpl.
  - intros [= <-]. exact Hs.
  - destruct (step cfg w e) as [w1|] eqn:E; [|discriminate].
    unfold countStarts in *. simpl in Hlen.
    pose proof (step_tasks_length cfg w w1 e E) as Hl1.
    assert (Hle : length (tasks w) + (if isStart e then 1 else 0) ≤ 1)
      by (destruct (isStart e); simpl in *; lia).
    destruct (step_singleRun cfg w w1 e Hs Hle E) as [Hs1 _].
    apply IH; [exact Hs1|]. unfold countStarts.
    destruct (isStart e); simpl in *; lia.
Qed.

(** X20: with at most one start request in the whole run, the round number
    of a non-faulty node never goes back and never skips: every step either
    leaves it as it is or adds exactly one. *)
Theorem round_number_steps_by_one (cfg : Config) (es : list Event) (e : Event) :
  isFaulty cfg = false →
  countStarts (es ++ [e]) ≤ 1 →
  ∃ w w' r r',
    exec cfg (initialWorld cfg) es = Some w
    ∧ step cfg w e = Some w'
    ∧ k (nodeState w) = Some r
    ∧ k (nodeState w') = Some r'
    ∧ (r' = r ∨ r' = r + 1).
Proof.
  intros Hf Hc. destruct (run_total cfg es) as (w & He & Hw & Hnn & _).
  destruct (step_wellFormed cfg w e Hw) as (w' & Hs & _).
  destruct (Hnn Hf) as (_ & _ & r & Hk & _).
  assert (Hce : countStarts es + (if isStart e then 1 else 0) ≤ 1).
  { unfold countStarts in *. rewrite List.filter_app, length_app in Hc. simpl in Hc.
    destruct (isStart e); simpl in *; lia. }
  assert (Hs1 : singleRun cfg w).
  { apply (exec_singleRun cfg es (initialWorld cfg) w (initialWorld_singleRun cfg Hf));
      [simpl; lia|exact He]. }
  pose proof (exec_tasks_length cfg es _ _ He) as Hlen. simpl in Hlen.
  assert (Hle : length (tasks w) + (if isStart e then 1 else 0) ≤ 1).
  { destruct (isStart e) eqn:Est; [|lia].
    assert (countStarts es = 0) by lia. lia. }
  destruct (step_singleRun cfg w w' e Hs1 Hle Hs) as [_ [Hsame|(r0 & Hk0 & Hk1)]].
  - exists w, w', r, r. rewrite Hsame. auto 6.
  - exists w, w', r, (r + 1). rewrite Hk in Hk0. injection Hk0 as <-. auto 6.
Qed.

Lemma round_number_steps_by_one_witness :
  ∃ w w' r r',
    exec fourNodes (initialWorld fourNodes)
      [Start; Resume 0 true; Resume 0 true] = Some w
    ∧ step fourNodes w (Resume 0 true) = Some w'
    ∧ k (nodeState w) = Some r
    ∧ k (nodeState w') = Some r'
    ∧ (r' = r ∨ r' = r + 1).
Proof.
  apply (round_number_steps_by_one fourNodes
           [Start; Resume 0 true; Resume 0 true] (Resume 0 true) eq_refl).
  vm_compute. lia.
Defined.
